(** * hid-master: the control panel's session and dispatch logic (src/main.ts)

    A shallow embedding of the TypeScript front end: the four module-level
    variables ([scannedDevices], [selectedDevicePath], [unlistenHid],
    [activeListeners]), the log ([addLog]), the push-event subscription
    ([initEventListener]) and the click handlers installed by [startApp].

    Conventions.
    - A JavaScript string is the list of its UTF-16 code units ([JsString]).
    - The backend reached through [invoke] is an oracle: a [Backend] gives,
      for each command, either the value its promise resolves with or the
      reason it is rejected with.
    - An [async] handler is a [Task]: it runs until its next [await] and
      then hands back a continuation that takes the backend's answer and
      the globals as they are at resumption. [run] completes a handler with
      nothing scheduled in between, and [reachable] is built from such
      runs. A [Page] keeps the suspended handlers next to the globals, so
      that clicks, frames and settlements interleave in any order
      ([page_reachable]).
    - [history] is a ghost trace of the calls to [addLog] and [invoke], in
      program order; [logDiv] is the content of the [#log] element, without
      the wall-clock prefix of each line.
    - Numbers that come from the backend (response and payload bytes,
      [usage_page], [interface_number]) are integers.
    - [renderDeviceList] writes the strings of a descriptor into the markup
      as they are, so the [data-path] a click reads back need not be the
      path that was written. [ClickItem] is the click on an item that reads
      back as written; [ClickElement], an event of a [Page], is a click
      with any [data-path]. The strings are taken to carry no script: an
      event-handler attribute among them would run code of its own. *)

From Stdlib Require Import ZArith List Ascii String DecimalString.
From stdpp Require Import gmap list.

Local Open Scope Z_scope.

(* ===================================================================== *)
(** ** JavaScript strings *)
(* ===================================================================== *)

Abbreviation JsString := (list N).

(** A literal: every character of an ASCII literal is one code unit. *)
Definition js (s : string) : JsString :=
  List.map N_of_ascii (list_ascii_of_string s).

(** The code units matched by [\s], stripped by [String.prototype.trim]
    and skipped by [parseInt]: WhiteSpace and LineTerminator of ECMA-262. *)
Definition is_ws (c : N) : bool :=
  ((9 <=? c) && (c <=? 13))%N
  || (c =? 32)%N || (c =? 160)%N || (c =? 5760)%N
  || ((8192 <=? c) && (c <=? 8202))%N
  || (c =? 8232)%N || (c =? 8233)%N || (c =? 8239)%N
  || (c =? 8287)%N || (c =? 12288)%N || (c =? 65279)%N.

Fixpoint drop_ws (s : JsString) : JsString :=
  match s with
  | c :: s' => if is_ws c then drop_ws s' else s
  | [] => []
  end.

(** [s.trim()] *)
Definition trim (s : JsString) : JsString :=
  rev (drop_ws (rev (drop_ws s))).

(** [s.split(/\s+/)]: a maximal run of white space is one separator; a
    separator at either end of [s] leaves an empty first or last piece, and
    the empty string splits into one empty piece. *)
Fixpoint split_ws (s : JsString) : list JsString :=
  match s with
  | [] => [[]]
  | c :: s' =>
      if is_ws c then
        match s' with
        | c' :: _ => if is_ws c' then split_ws s' else [] :: split_ws s'
        | [] => [] :: split_ws s'
        end
      else
        match split_ws s' with
        | t :: ts => (c :: t) :: ts
        | [] => [[c]]
        end
  end.

(** [a.join(' ')] *)
Fixpoint join_sp (l : list JsString) : JsString :=
  match l with
  | [] => []
  | [x] => x
  | x :: l' => x ++ 32%N :: join_sp l'
  end.

(* ===================================================================== *)
(** ** JavaScript numbers, as far as the program meets them *)
(* ===================================================================== *)

(** The values [parseInt] can return: NaN, the two infinities (an integer
    too large for a double), negative zero, and the integral doubles. *)
Inductive JsNumber : Type :=
  | NaN
  | PosInf
  | NegInf
  | NegZero
  | Int (z : Z).

(** The value of a code unit as a radix-16 digit. *)
Definition hex_digit (c : N) : option Z :=
  if ((48 <=? c) && (c <=? 57))%N then Some (Z.of_N c - 48)
  else if ((65 <=? c) && (c <=? 70))%N then Some (Z.of_N c - 55)
  else if ((97 <=? c) && (c <=? 102))%N then Some (Z.of_N c - 87)
  else None.

(** The longest prefix of radix-16 digits, read left to right:
    [None] when the prefix is empty, otherwise its mathematical value
    continued from the accumulator. *)
Fixpoint hex_prefix (acc : Z) (seen : bool) (s : JsString) : option Z :=
  match s with
  | c :: s' =>
      match hex_digit c with
      | Some d => hex_prefix (16 * acc + d) true s'
      | None => if seen then Some acc else None
      end
  | [] => if seen then Some acc else None
  end.

(** The Number value of a positive mathematical integer: round to the
    nearest double, ties to even; an integer that rounds to 2^1024 or more
    has no finite double ([None]). *)
Definition round_double (m : Z) : option Z :=
  let bits := Z.log2 m + 1 in
  if bits <=? 53 then Some m
  else
    let e := bits - 53 in
    let q := Z.shiftr m e in
    let r := Z.land m (Z.ones e) in
    let half := Z.shiftl 1 (e - 1) in
    let q' := if (half <? r) || ((r =? half) && Z.odd q) then q + 1 else q in
    let v := Z.shiftl q' e in
    if Z.shiftl 1 1024 <=? v then None else Some v.

(** [parseInt(s, 16)]: skip leading white space, take one sign, take one
    [0x] or [0X] prefix, read the longest run of hexadecimal digits; no digit
    gives NaN. *)
Definition parseInt16 (s : JsString) : JsNumber :=
  let s1 := drop_ws s in
  let '(neg, s2) :=
    match s1 with
    | c :: r =>
        if (c =? 45)%N then (true, r)
        else if (c =? 43)%N then (false, r)
        else (false, s1)
    | [] => (false, s1)
    end in
  let s3 :=
    match s2 with
    | c :: x :: r =>
        if (c =? 48)%N && ((x =? 120)%N || (x =? 88)%N) then r else s2
    | _ => s2
    end in
  match hex_prefix 0 false s3 with
  | None => NaN
  | Some m =>
      if m =? 0 then (if neg then NegZero else Int 0)
      else
        match round_double m with
        | Some v => Int (if neg then - v else v)
        | None => if neg then NegInf else PosInf
        end
  end.

(** One hexadecimal digit of [Number.prototype.toString(16)], already
    upper-cased. *)
Definition hex_char (d : Z) : N :=
  if d <? 10 then Z.to_N (48 + d) else Z.to_N (55 + d).

(** The radix-16 digits of a positive integer, most significant first.
    The position bounds the recursion; [Pos.size_nat] digits always
    suffice. *)
Fixpoint hex_digits (fuel : nat) (n : Z) (acc : JsString) : JsString :=
  match fuel with
  | O => acc
  | S fuel' =>
      let acc' := hex_char (n mod 16) :: acc in
      if n / 16 =? 0 then acc' else hex_digits fuel' (n / 16) acc'
  end.

(** [b.toString(16).toUpperCase()] for an integral [b]. *)
Definition toString16_upper (b : Z) : JsString :=
  match b with
  | Z0 => [48%N]
  | Zpos p => hex_digits (Pos.size_nat p) b []
  | Zneg p => 45%N :: hex_digits (Pos.size_nat p) (Zpos p) []
  end.

(** [s.padStart(2, '0')] *)
Definition padStart2 (s : JsString) : JsString :=
  match s with
  | [] => [48%N; 48%N]
  | [c] => [48%N; c]
  | _ => s
  end.

(** [bytes.map(b => b.toString(16).toUpperCase().padStart(2, '0')).join(' ')] *)
Definition hex_line (bytes : list Z) : JsString :=
  join_sp (List.map (fun b => padStart2 (toString16_upper b)) bytes).

(** Decimal rendering of an integral number in a template literal, for
    the numbers below 10^21 (from there on a template literal prints an
    exponent). *)
Definition dec (z : Z) : JsString :=
  js (DecimalString.NilZero.string_of_int (Z.to_int z)).

(* ===================================================================== *)
(** ** The session: globals, log and backend *)
(* ===================================================================== *)

Record HidDevice : Type := {
  path : JsString;
  vendor_id : JsString;
  product_id : JsString;
  product_string : option JsString;
  manufacturer_string : option JsString;
  usage_page : Z;
  interface_number : Z
}.

(** The second argument of [addLog]. *)
Inductive LogType : Type := info | incoming | outgoing | error.

(** One child of [#log]: the arguments [addLog] was called with. The
    wall-clock prefix of the rendered line is not part of the model. *)
Record LogEntry : Type := {
  entry_type : LogType;
  entry_message : JsString
}.

(** The commands sent through [invoke]. A path argument is the value of
    [selectedDevicePath] when the call is made, hence [option]. *)
Inductive Call : Type :=
  | ScanHidDevices
  | StartListening (p : option JsString)
  | SendHidCommand (p : option JsString) (data : list JsNumber).

Inductive Result (A : Type) : Type :=
  | Resolved (a : A)
  | Rejected (e : JsString).
Arguments Resolved {A} a.
Arguments Rejected {A} e.

(** What the promise of each command settles with; a rejection carries
    the text that [`${e}`] renders. *)
Definition Reply (c : Call) : Type :=
  match c with
  | ScanHidDevices => Result (list HidDevice)
  | StartListening _ => Result unit
  | SendHidCommand _ _ => Result (list Z)
  end.

Definition Backend : Type := forall c : Call, Reply c.

Inductive Event : Type :=
  | EvLog (e : LogEntry)
  | EvInvoke (c : Call).

Record State : Type := {
  scannedDevices : list HidDevice;
  selectedDevicePath : option JsString;
  unlistenHid : bool;
  activeListeners : gset (option JsString);
  (** callbacks currently registered on the "hid-data" channel *)
  hidHandlers : nat;
  (** the paths written into the [data-path] of the [.device-item]
      elements last rendered *)
  deviceItems : list JsString;
  (** [innerText] of [#selectedTag] *)
  selectedTag : JsString;
  logDiv : list LogEntry;
  history : list Event
}.

Definition set_scannedDevices (v : list HidDevice) (st : State) : State :=
  {| scannedDevices := v; selectedDevicePath := selectedDevicePath st;
     unlistenHid := unlistenHid st; activeListeners := activeListeners st;
     hidHandlers := hidHandlers st; deviceItems := deviceItems st;
     selectedTag := selectedTag st; logDiv := logDiv st; history := history st |}.

Definition set_selectedDevicePath (v : option JsString) (st : State) : State :=
  {| scannedDevices := scannedDevices st; selectedDevicePath := v;
     unlistenHid := unlistenHid st; activeListeners := activeListeners st;
     hidHandlers := hidHandlers st; deviceItems := deviceItems st;
     selectedTag := selectedTag st; logDiv := logDiv st; history := history st |}.

Definition set_unlistenHid (v : bool) (st : State) : State :=
  {| scannedDevices := scannedDevices st; selectedDevicePath := selectedDevicePath st;
     unlistenHid := v; activeListeners := activeListeners st;
     hidHandlers := hidHandlers st; deviceItems := deviceItems st;
     selectedTag := selectedTag st; logDiv := logDiv st; history := history st |}.

Definition set_activeListeners (v : gset (option JsString)) (st : State) : State :=
  {| scannedDevices := scannedDevices st; selectedDevicePath := selectedDevicePath st;
     unlistenHid := unlistenHid st; activeListeners := v;
     hidHandlers := hidHandlers st; deviceItems := deviceItems st;
     selectedTag := selectedTag st; logDiv := logDiv st; history := history st |}.

Definition set_hidHandlers (v : nat) (st : State) : State :=
  {| scannedDevices := scannedDevices st; selectedDevicePath := selectedDevicePath st;
     unlistenHid := unlistenHid st; activeListeners := activeListeners st;
     hidHandlers := v; deviceItems := deviceItems st;
     selectedTag := selectedTag st; logDiv := logDiv st; history := history st |}.

Definition set_deviceItems (v : list JsString) (st : State) : State :=
  {| scannedDevices := scannedDevices st; selectedDevicePath := selectedDevicePath st;
     unlistenHid := unlistenHid st; activeListeners := activeListeners st;
     hidHandlers := hidHandlers st; deviceItems := v;
     selectedTag := selectedTag st; logDiv := logDiv st; history := history st |}.

Definition set_selectedTag (v : JsString) (st : State) : State :=
  {| scannedDevices := scannedDevices st; selectedDevicePath := selectedDevicePath st;
     unlistenHid := unlistenHid st; activeListeners := activeListeners st;
     hidHandlers := hidHandlers st; deviceItems := deviceItems st;
     selectedTag := v; logDiv := logDiv st; history := history st |}.

Definition set_logDiv (v : list LogEntry) (st : State) : State :=
  {| scannedDevices := scannedDevices st; selectedDevicePath := selectedDevicePath st;
     unlistenHid := unlistenHid st; activeListeners := activeListeners st;
     hidHandlers := hidHandlers st; deviceItems := deviceItems st;
     selectedTag := selectedTag st; logDiv := v; history := history st |}.

(** Ghost: note one more call in the trace. *)
Definition record (ev : Event) (st : State) : State :=
  {| scannedDevices := scannedDevices st; selectedDevicePath := selectedDevicePath st;
     unlistenHid := unlistenHid st; activeListeners := activeListeners st;
     hidHandlers := hidHandlers st; deviceItems := deviceItems st;
     selectedTag := selectedTag st; logDiv := logDiv st;
     history := history st ++ [ev] |}.

(** [addLog(message, type)]. The [#log] element is part of the markup that
    [startApp] installs before any handler, so the early return on a missing
    element is never taken by the handlers below. *)
Definition addLog (message : JsString) (type : LogType) (st : State) : State :=
  let entry := {| entry_type := type; entry_message := message |} in
  record (EvLog entry) (set_logDiv (logDiv st ++ [entry]) st).

(* ===================================================================== *)
(** ** Asynchronous handlers *)
(* ===================================================================== *)

(** An [async] function in progress: finished with the globals it leaves,
    or suspended at [await invoke(c, ...)]; the continuation gets the
    settlement of the promise and the globals at resumption. *)
Inductive Task : Type :=
  | Done (st : State)
  | Await (c : Call) (st : State) (k : Reply c -> State -> Task).

(** [await invoke(c)]: the call is made, then the handler is suspended. *)
Definition invoke (c : Call) (st : State) (k : Reply c -> State -> Task) : Task :=
  Await c (record (EvInvoke c) st) k.

(** A handler run to completion with nothing else scheduled in between:
    each suspended call is answered by the backend and the handler resumes
    on the globals it left. *)
Fixpoint run (b : Backend) (t : Task) : State :=
  match t with
  | Done st => st
  | Await c st k => run b (k (b c) st)
  end.

(** One resumption under a scheduler: before the pending call of a
    suspended handler is answered, whatever else was scheduled ([others])
    has run on the globals. *)
Definition resume (b : Backend) (others : State -> State) (t : Task) : Task :=
  match t with
  | Done st => Done st
  | Await c st k => k (b c) (others st)
  end.

(** [initEventListener()], one whole run with no other run of it in
    between: drop the previous subscription if there is one, then
    subscribe and keep the handle. The page runs it once, from
    [startApp]. *)
Definition initEventListener (st : State) : State :=
  let st1 :=
    if unlistenHid st then set_hidHandlers (Nat.pred (hidHandlers st)) st
    else st in
  set_unlistenHid true (set_hidHandlers (S (hidHandlers st1)) st1).

(** The callback given to [listen("hid-data", ...)]. *)
Definition on_hid_data (payload : list Z) (st : State) : State :=
  addLog (js "[ASYNC IN] " ++ hex_line payload) incoming st.

(** One frame pushed on the channel: every registered callback runs. *)
Definition hid_data_event (payload : list Z) (st : State) : State :=
  Nat.iter (hidHandlers st) (on_hid_data payload) st.

(** [renderDeviceList()], as far as the session sees it: one clickable
    item per catalog entry, with the entry's path written into its
    [data-path]. *)
Definition renderDeviceList (st : State) : State :=
  set_deviceItems (List.map path (scannedDevices st)) st.

(** [`${s}`] for [s : string | null]. *)
Definition str_or_null (s : option JsString) : JsString :=
  match s with
  | Some x => x
  | None => js "null"
  end.

(** [item.dataset.path || null] *)
Definition path_or_null (p : JsString) : option JsString :=
  match p with
  | [] => None
  | _ => Some p
  end.

(** The click listener of a [.device-item] whose [data-path] is [p]. *)
Definition device_item_click (p : JsString) (st : State) : State :=
  let st1 := set_selectedDevicePath (path_or_null p) st in
  let st2 :=
    match List.find (fun d => bool_decide (Some (path d) = selectedDevicePath st1))
                    (scannedDevices st1) with
    | Some device =>
        addLog (js "Device selected. Interface: " ++ dec (interface_number device)) info
          (set_selectedTag
             (js "Active: " ++ str_or_null (product_string device)
              ++ js " (IF:" ++ dec (interface_number device) ++ js ")") st1)
    | None => st1
    end in
  renderDeviceList st2.

(** [scanBtn.onclick] *)
Definition scanBtn_onclick (st : State) : Task :=
  let st1 := addLog (js "Scanning HID bus...") info st in
  invoke ScanHidDevices st1 (fun r st' =>
    match r with
    | Resolved ds =>
        let st2 := renderDeviceList (set_scannedDevices ds st') in
        Done (addLog (js "Found " ++ dec (Z.of_nat (length (scannedDevices st2)))
                      ++ js " devices.") info st2)
    | Rejected e => Done (addLog (js "Scan Error: " ++ e) error st')
    end).

(** [!selectedDevicePath]: null and the empty string are falsy. *)
Definition no_selection (sel : option JsString) : bool :=
  match sel with
  | None | Some [] => true
  | Some _ => false
  end.

(** [hexCmd.split(/\s+/).map(h => parseInt(h, 16))] *)
Definition cmdArray (hexCmd : JsString) : list JsNumber :=
  List.map parseInt16 (split_ws hexCmd).

(** The [catch] block of [sendBtn.onclick]. *)
Definition send_catch (e : JsString) (st : State) : Task :=
  let st1 := addLog (js "Communication Failure: " ++ e) error st in
  Done (set_activeListeners (activeListeners st1 ∖ {[selectedDevicePath st1]}) st1).

(** Steps 2 and 3 of the [try] block of [sendBtn.onclick]. *)
Definition send_command (data : list JsNumber) (st : State) : Task :=
  invoke (SendHidCommand (selectedDevicePath st) data) st (fun r st' =>
    match r with
    | Resolved response =>
        match response with
        | [] => Done st'
        | _ :: _ => Done (addLog (js "[RESULT] " ++ hex_line response) info st')
        end
    | Rejected e => send_catch e st'
    end).

(** [sendBtn.onclick], with [text] the value of [#hexInput]. *)
Definition sendBtn_onclick (text : JsString) (st : State) : Task :=
  if no_selection (selectedDevicePath st) then
    Done (addLog (js "Error: No device selected.") error st)
  else
    let hexCmd := trim text in
    match hexCmd with
    | [] => Done st
    | _ :: _ =>
        let data := cmdArray hexCmd in
        let st1 := addLog (js "[OUT] " ++ hexCmd) outgoing st in
        if decide (selectedDevicePath st1 ∈ activeListeners st1) then
          send_command data st1
        else
          let st2 := addLog (js "[SYS] Starting background worker for current OS...")
                            info st1 in
          invoke (StartListening (selectedDevicePath st2)) st2 (fun r st' =>
            match r with
            | Resolved _ =>
                send_command data
                  (set_activeListeners
                     ({[selectedDevicePath st']} ∪ activeListeners st') st')
            | Rejected e => send_catch e st'
            end)
    end.

(** [clearLog.onclick] *)
Definition clearLog_onclick (st : State) : State :=
  set_logDiv [] st.

(** The module-level initial values, with the page not yet built. *)
Definition initial : State :=
  {| scannedDevices := []; selectedDevicePath := None; unlistenHid := false;
     activeListeners := ∅; hidHandlers := 0%nat; deviceItems := [];
     selectedTag := js "Wait for Device..."; logDiv := []; history := [] |}.

(** [startApp()] on a page that has the [#app] element: build the markup,
    subscribe to the push channel, install the handlers. *)
Definition startApp (st : State) : State :=
  initEventListener st.

(** What can happen to a started session. [ClickItem i] is a click on the
    [i]-th item of the device list, taken to read back the path that was
    written into it. *)
Inductive Action : Type :=
  | ClickScan
  | ClickItem (i : nat)
  | ClickSend (text : JsString)
  | ClickClear
  | HidData (payload : list Z).

(** One action, handled to completion against the backend [b]. A click
    on the device list needs an item under the pointer. *)
Definition step (b : Backend) (a : Action) (st : State) : State :=
  match a with
  | ClickScan => run b (scanBtn_onclick st)
  | ClickItem i =>
      match deviceItems st !! i with
      | Some p => device_item_click p st
      | None => st
      end
  | ClickSend text => run b (sendBtn_onclick text st)
  | ClickClear => clearLog_onclick st
  | HidData payload => hid_data_event payload st
  end.

(** The states a session passes through when every handler finishes
    before the next event is taken and every clicked item reads back the
    path written into it. [page_reachable] below has neither
    restriction. *)
Inductive reachable : State -> Prop :=
  | reachable_start : reachable (startApp initial)
  | reachable_step b a st : reachable st -> reachable (step b a st).

(** The events a handler added to a trace that began as [old]. *)
Definition new_events (old : State) (new : State) : list Event :=
  drop (length (history old)) (history new).

Definition is_start_listening (ev : Event) : bool :=
  match ev with
  | EvInvoke (StartListening _) => true
  | _ => false
  end.

Definition is_invoke (ev : Event) : bool :=
  match ev with
  | EvInvoke _ => true
  | EvLog _ => false
  end.

(** [activeListeners.has(p)] *)
Definition hasListener (p : JsString) (st : State) : Prop :=
  Some p ∈ activeListeners st.

(* ===================================================================== *)
(** ** The specification's vocabulary *)
(* ===================================================================== *)

(** Cutting a text at every single white-space unit. *)
Fixpoint pieces (s : JsString) : list JsString :=
  match s with
  | [] => [[]]
  | c :: s' =>
      if is_ws c then [] :: pieces s'
      else
        match pieces s' with
        | t :: ts => (c :: t) :: ts
        | [] => [[c]]
        end
  end.

Definition nonempty (t : JsString) : bool :=
  match t with
  | [] => false
  | _ :: _ => true
  end.

(** The tokens of a text: its maximal runs of units that are not white
    space. *)
Definition tokens (s : JsString) : list JsString :=
  List.filter nonempty (pieces s).

(** The positional value of a string of hexadecimal digits. *)
Fixpoint hex_value (s : JsString) : Z :=
  match s with
  | [] => 0
  | c :: s' => default 0 (hex_digit c) * 16 ^ Z.of_nat (length s') + hex_value s'
  end.

Definition is_hex (c : N) : bool :=
  match hex_digit c with
  | Some _ => true
  | None => false
  end.

(** A byte as two upper-case hexadecimal digits. *)
Definition hex_pair (b : Z) : JsString :=
  [hex_char (b / 16); hex_char (b mod 16)].

Definition is_byte (b : Z) : bool := (0 <=? b) && (b <? 256).

Definition is_upper_hex (c : N) : bool :=
  (((48 <=? c) && (c <=? 57)) || ((65 <=? c) && (c <=? 70)))%N.

(** The selection names a descriptor of the catalog. *)
Definition selection_in_catalog (st : State) : Prop :=
  match selectedDevicePath st with
  | Some p => In p (List.map path (scannedDevices st))
  | None => True
  end.

(** How many times [start_listening] was invoked in a trace. *)
Definition starts (evs : list Event) : nat :=
  length (List.filter is_start_listening evs).

Definition log_entries (evs : list Event) : list LogEntry :=
  omap (fun ev => match ev with EvLog e => Some e | EvInvoke _ => None end) evs.

(** The entries the handlers write. *)
Definition out_entry (hexCmd : JsString) : LogEntry :=
  {| entry_type := outgoing; entry_message := js "[OUT] " ++ hexCmd |}.

Definition sys_entry : LogEntry :=
  {| entry_type := info;
     entry_message := js "[SYS] Starting background worker for current OS..." |}.

Definition failure_entry (e : JsString) : LogEntry :=
  {| entry_type := error; entry_message := js "Communication Failure: " ++ e |}.

Definition result_entry (resp : list Z) : LogEntry :=
  {| entry_type := info; entry_message := js "[RESULT] " ++ hex_line resp |}.

Definition scanning_entry : LogEntry :=
  {| entry_type := info; entry_message := js "Scanning HID bus..." |}.

Definition found_entry (n : nat) : LogEntry :=
  {| entry_type := info;
     entry_message := js "Found " ++ dec (Z.of_nat n) ++ js " devices." |}.

Definition scan_error_entry (e : JsString) : LogEntry :=
  {| entry_type := error; entry_message := js "Scan Error: " ++ e |}.

Definition incoming_entry (payload : list Z) : LogEntry :=
  {| entry_type := incoming; entry_message := js "[ASYNC IN] " ++ hex_line payload |}.

Definition selected_entry (d : HidDevice) : LogEntry :=
  {| entry_type := info;
     entry_message := js "Device selected. Interface: " ++ dec (interface_number d) |}.

Definition no_selection_entry : LogEntry :=
  {| entry_type := error; entry_message := js "Error: No device selected." |}.

(** A state after the events [evs]: they extend the trace, and the
    entries among them extend the log. *)
Definition extend (evs : list Event) (st : State) : State :=
  {| scannedDevices := scannedDevices st; selectedDevicePath := selectedDevicePath st;
     unlistenHid := unlistenHid st; activeListeners := activeListeners st;
     hidHandlers := hidHandlers st; deviceItems := deviceItems st;
     selectedTag := selectedTag st;
     logDiv := logDiv st ++ log_entries evs;
     history := history st ++ evs |}.

(** The write of a dispatch, by the answer of the backend. *)
Definition write_events (b : Backend) (p : JsString) (data : list JsNumber)
  : list Event :=
  EvInvoke (SendHidCommand (Some p) data) ::
  match b (SendHidCommand (Some p) data) with
  | Resolved [] => []
  | Resolved (x :: resp) => [EvLog (result_entry (x :: resp))]
  | Rejected e => [EvLog (failure_entry e)]
  end.

(** The events of a dispatch of [hexCmd] to [p], by the answers of the
    backend; [listened] tells whether [p] was in the registry. *)
Definition dispatch_events (b : Backend) (p hexCmd : JsString) (listened : bool)
  : list Event :=
  EvLog (out_entry hexCmd) ::
  if listened then write_events b p (cmdArray hexCmd)
  else
    EvLog sys_entry :: EvInvoke (StartListening (Some p)) ::
    match b (StartListening (Some p)) with
    | Resolved _ => write_events b p (cmdArray hexCmd)
    | Rejected e => [EvLog (failure_entry e)]
    end.

Definition is_resolved {A} (r : Result A) : bool :=
  match r with
  | Resolved _ => true
  | Rejected _ => false
  end.

(** The dispatch went through: no call was rejected. *)
Definition dispatch_ok (b : Backend) (p hexCmd : JsString) (listened : bool) : bool :=
  (listened || is_resolved (b (StartListening (Some p))))
  && is_resolved (b (SendHidCommand (Some p) (cmdArray hexCmd))).

(** The registry a dispatch leaves. *)
Definition dispatch_listeners (b : Backend) (p hexCmd : JsString)
    (X : gset (option JsString)) : gset (option JsString) :=
  if dispatch_ok b p hexCmd (bool_decide (Some p ∈ X)) then {[Some p]} ∪ X
  else X ∖ {[Some p]}.

(** What holds of every state of a session: one callback is subscribed
    to the push channel, the device list shows the catalog, and the
    selection is never the empty string. *)
Definition session_inv (st : State) : Prop :=
  hidHandlers st = 1%nat
  /\ deviceItems st = List.map path (scannedDevices st)
  /\ selectedDevicePath st <> Some [].

(** Two lists of pieces with the same first piece and the same non-empty
    pieces after it. *)
Definition same_tokens (l l' : list JsString) : Prop :=
  exists t ts ts',
    l = t :: ts /\ l' = t :: ts'
    /\ List.filter nonempty ts = List.filter nonempty ts'.

(* ===================================================================== *)
(** ** Fixtures *)
(* ===================================================================== *)

Definition dev1 : HidDevice :=
  {| path := js "dev-1"; vendor_id := js "0x2dbf"; product_id := js "0x5038";
     product_string := Some (js "Keystone"); manufacturer_string := None;
     usage_page := 65280; interface_number := 1 |}.

(** A device whose path is the empty string. *)
Definition dev_nopath : HidDevice :=
  {| path := []; vendor_id := js "0x0001"; product_id := js "0x0002";
     product_string := None; manufacturer_string := None;
     usage_page := 1; interface_number := 0 |}.

(** A backend that sees [ds], starts listeners and answers with [resp]. *)
Definition backend_ok (ds : list HidDevice) (resp : list Z) : Backend :=
  fun c =>
    match c return Reply c with
    | ScanHidDevices => Resolved ds
    | StartListening _ => Resolved tt
    | SendHidCommand _ _ => Resolved resp
    end.

(** A backend whose every call is rejected with [e]. *)
Definition backend_down (e : JsString) : Backend :=
  fun c =>
    match c return Reply c with
    | ScanHidDevices => Rejected e
    | StartListening _ => Rejected e
    | SendHidCommand _ _ => Rejected e
    end.

(** A backend that starts listeners but rejects every write. *)
Definition backend_write_fails (e : JsString) : Backend :=
  fun c =>
    match c return Reply c with
    | ScanHidDevices => Resolved []
    | StartListening _ => Resolved tt
    | SendHidCommand _ _ => Rejected e
    end.

(** Scan, then click the first item: [dev-1] is selected. *)
Definition st_selected : State :=
  step (backend_ok [dev1] []) (ClickItem 0)
    (step (backend_ok [dev1] []) ClickScan (startApp initial)).

(** ... and then a rescan that no longer sees the device. *)
Definition st_stale : State :=
  step (backend_ok [] []) ClickScan st_selected.

(* ===================================================================== *)
(** ** The rest of main.ts: time stamps and the device list *)
(* ===================================================================== *)

(** [s.padStart(n, '0')] *)
Definition padStart0 (n : nat) (s : JsString) : JsString :=
  repeat 48%N (n - length s) ++ s.

(** The fields [addLog] reads from [new Date()]. *)
Record Clock : Type := {
  getHours : Z;
  getMinutes : Z;
  getSeconds : Z;
  getMilliseconds : Z
}.

(** The [time] string of [addLog]. *)
Definition log_time (d : Clock) : JsString :=
  let ms := padStart0 3 (dec (getMilliseconds d)) in
  padStart0 2 (dec (getHours d)) ++ 58%N
  :: padStart0 2 (dec (getMinutes d)) ++ 58%N
  :: padStart0 2 (dec (getSeconds d)) ++ 46%N :: ms.

(** What a clock can show. *)
Definition clock_ok (d : Clock) : Prop :=
  0 <= getHours d < 24 /\ 0 <= getMinutes d < 60
  /\ 0 <= getSeconds d < 60 /\ 0 <= getMilliseconds d < 1000.

(** The decimal digits of [n], [width] of them, most significant first. *)
Fixpoint digits (width : nat) (n : Z) : JsString :=
  match width with
  | O => []
  | S w => digits w (n / 10) ++ [Z.to_N (48 + n mod 10)]
  end.








(** [toLowerCase] on code units below 128, where it only touches [A-Z]. *)
Definition ascii_lower (s : JsString) : JsString :=
  List.map (fun c => if ((65 <=? c) && (c <=? 90))%N then (c + 32)%N else c) s.

Definition dev2 : HidDevice :=
  {| path := js "dev-2"; vendor_id := js "0x046D"; product_id := js "0xc077";
     product_string := None; manufacturer_string := Some (js "Logi");
     usage_page := 1; interface_number := 0 |}.

(** Scan finds two devices, the first is selected and has been written to
    once, so its listener is registered. *)
Definition st_listening : State :=
  let b := backend_ok [dev1; dev2] [170] in
  step b (ClickSend (js "00 C0"))
    (step b (ClickItem 0) (step b ClickScan (startApp initial))).

(* ===================================================================== *)
(** ** The page between two awaits *)
(* ===================================================================== *)

(** The part of [scanBtn.onclick] after [await invoke("scan_hid_devices")]. *)
Definition scan_then : Reply ScanHidDevices -> State -> Task :=
  fun r st' =>
    match r with
    | Resolved ds =>
        let st2 := renderDeviceList (set_scannedDevices ds st') in
        Done (addLog (js "Found " ++ dec (Z.of_nat (length (scannedDevices st2)))
                      ++ js " devices.") info st2)
    | Rejected e => Done (addLog (js "Scan Error: " ++ e) error st')
    end.

(** The part of [sendBtn.onclick] after [await invoke("send_hid_command")]. *)
Definition write_then (q : option JsString) (data : list JsNumber)
  : Reply (SendHidCommand q data) -> State -> Task :=
  fun r st' =>
    match r with
    | Resolved response =>
        match response with
        | [] => Done st'
        | _ :: _ => Done (addLog (js "[RESULT] " ++ hex_line response) info st')
        end
    | Rejected e => send_catch e st'
    end.

(** The part of [sendBtn.onclick] after [await invoke("start_listening")]. *)
Definition start_then (q : option JsString) (data : list JsNumber)
  : Reply (StartListening q) -> State -> Task :=
  fun r st' =>
    match r with
    | Resolved _ =>
        send_command data
          (set_activeListeners
             ({[selectedDevicePath st']} ∪ activeListeners st') st')
    | Rejected e => send_catch e st'
    end.

(** A call in flight: the command that was invoked and the rest of the
    handler that awaits it. *)
Record Pending : Type := {
  pending_call : Call;
  pending_then : Reply pending_call -> State -> Task
}.

(** The page at a moment when no handler is running: the globals, and the
    handlers suspended at an [await], oldest first. *)
Record Page : Type := {
  globals : State;
  in_flight : list Pending
}.

(** A handler has run up to its next [await], or to its end. *)
Definition suspend (t : Task) (others : list Pending) : Page :=
  match t with
  | Done st => {| globals := st; in_flight := others |}
  | Await c st k =>
      {| globals := st;
         in_flight := others ++ [{| pending_call := c; pending_then := k |}] |}
  end.

(** The handler an action starts. *)
Definition handler (a : Action) (st : State) : Task :=
  match a with
  | ClickScan => scanBtn_onclick st
  | ClickItem i =>
      Done match deviceItems st !! i with
           | Some p => device_item_click p st
           | None => st
           end
  | ClickSend text => sendBtn_onclick text st
  | ClickClear => Done (clearLog_onclick st)
  | HidData payload => Done (hid_data_event payload st)
  end.

(** What the event loop takes next: an action, whose handler runs up to
    its first [await]; a click on a [.device-item] element whose
    [dataset.path] reads [p] (the empty string for an element without the
    attribute); or the settlement of the [i]-th call in flight, with the
    answer [b] gives, after which that handler runs up to its next
    [await].

    [ClickElement] is there because [renderDeviceList] writes the path and
    the other strings of a descriptor into the markup as they are: a path
    with a double quote in it reads back cut at the quote, and a name with
    markup in it can add elements of its own. [ClickItem] is the click on
    an item whose attribute reads back as it was written. *)
Inductive PageEvent : Type :=
  | Occurs (a : Action)
  | ClickElement (p : JsString)
  | Settles (i : nat) (b : Backend).

Definition page_step (ev : PageEvent) (pg : Page) : Page :=
  match ev with
  | Occurs a => suspend (handler a (globals pg)) (in_flight pg)
  | ClickElement p =>
      {| globals := device_item_click p (globals pg); in_flight := in_flight pg |}
  | Settles i b =>
      match in_flight pg !! i with
      | Some w =>
          suspend (pending_then w (b (pending_call w)) (globals pg))
                  (delete i (in_flight pg))
      | None => pg
      end
  end.

Fixpoint page_run (evs : list PageEvent) (pg : Page) : Page :=
  match evs with
  | [] => pg
  | ev :: evs' => page_run evs' (page_step ev pg)
  end.

(** The page once [startApp] has returned. *)
Definition start_page : Page :=
  {| globals := startApp initial; in_flight := [] |}.

(** The pages a session passes through, handlers interleaved in any
    way. *)
Inductive page_reachable : Page -> Prop :=
  | page_start : page_reachable start_page
  | page_next ev pg : page_reachable pg -> page_reachable (page_step ev pg).

(** [follows R st t]: started or resumed on the globals [st], the task
    [t] leaves globals related to [st] by [R] at its next suspension or at
    its end; and so does every later part of it, on whatever globals it is
    resumed. *)
Inductive follows (R : State -> State -> Prop) : State -> Task -> Prop :=
  | follows_done st st' : R st st' -> follows R st (Done st')
  | follows_await st c st' k :
      R st st' -> (forall r st'', follows R st'' (k r st'')) ->
      follows R st (Await c st' k).

(** What a part of [scanBtn.onclick] or [sendBtn.onclick] does to the
    globals: the trace and the log grow together; the subscription, the
    selection and the tag stay; the device list is rendered from the
    catalog whenever the catalog is assigned. *)
Definition appends (st st' : State) : Prop :=
  hidHandlers st' = hidHandlers st
  /\ unlistenHid st' = unlistenHid st
  /\ selectedDevicePath st' = selectedDevicePath st
  /\ selectedTag st' = selectedTag st
  /\ (deviceItems st = List.map path (scannedDevices st) ->
      deviceItems st' = List.map path (scannedDevices st'))
  /\ exists evs,
       history st' = history st ++ evs
       /\ logDiv st' = logDiv st ++ log_entries evs.


Definition is_item_click (ev : PageEvent) : bool :=
  match ev with
  | Occurs (ClickItem _) | ClickElement _ => true
  | _ => false
  end.

(** The calls a handler of the page can leave in flight. *)
Definition scan_pending : Pending :=
  {| pending_call := ScanHidDevices; pending_then := scan_then |}.

Definition start_pending (q : option JsString) (data : list JsNumber) : Pending :=
  {| pending_call := StartListening q; pending_then := start_then q data |}.

Definition write_pending (q : option JsString) (data : list JsNumber) : Pending :=
  {| pending_call := SendHidCommand q data; pending_then := write_then q data |}.

(** A call in flight on behalf of a dispatch to [q]. *)
Definition dispatch_of (q : option JsString) (w : Pending) : Prop :=
  exists data,
    data <> [] /\ (w = start_pending q data \/ w = write_pending q data).

(** What holds of every page of a session: the invariant of the globals,
    a subscription handle in [unlistenHid], and in flight only calls of
    the two asynchronous handlers. *)
Definition page_inv (pg : Page) : Prop :=
  session_inv (globals pg)
  /\ unlistenHid (globals pg) = true
  /\ Forall (fun w => w = scan_pending \/ exists q, dispatch_of q w)
            (in_flight pg).


(** A device item is clicked only when no call is in flight. *)
Definition calm (ev : PageEvent) (pg : Page) : Prop :=
  is_item_click ev = true -> in_flight pg = [].

(** The pages of a session in which no device item is clicked while a
    call is in flight; everything else interleaves freely. *)
Inductive calm_reachable : Page -> Prop :=
  | calm_start : calm_reachable start_page
  | calm_next ev pg :
      calm_reachable pg -> calm ev pg -> calm_reachable (page_step ev pg).

(** The registry holds only paths whose listener was requested, and every
    write comes after a request for its path. *)
Definition registry_inv (st : State) : Prop :=
  (forall q, q ∈ activeListeners st ->
     no_selection q = false /\ In (EvInvoke (StartListening q)) (history st))
  /\ forall i q d,
       history st !! i = Some (EvInvoke (SendHidCommand q d)) ->
       d <> [] /\ no_selection q = false
       /\ In (EvInvoke (StartListening q)) (take i (history st)).

(** ... and the calls in flight belong to scans or to dispatches to the
    path that is selected, whose listener was requested. *)
Definition calm_inv (pg : Page) : Prop :=
  registry_inv (globals pg)
  /\ Forall (fun w =>
       w = scan_pending
       \/ (dispatch_of (selectedDevicePath (globals pg)) w
           /\ no_selection (selectedDevicePath (globals pg)) = false
           /\ In (EvInvoke (StartListening (selectedDevicePath (globals pg))))
                 (history (globals pg))))
     (in_flight pg).

(** Every event of a run keeps device clicks away from calls in
    flight. *)
Fixpoint calm_all (evs : list PageEvent) (pg : Page) : Prop :=
  match evs with
  | [] => True
  | ev :: evs' => calm ev pg /\ calm_all evs' (page_step ev pg)
  end.

(** Two devices are found and the first one is selected. *)
Definition pg_two : Page :=
  page_run [Occurs ClickScan; Settles 0 (backend_ok [dev1; dev2] [170]);
            Occurs (ClickItem 0)] start_page.

(** ... and it has been written to once. *)
Definition pg_listening : Page :=
  {| globals := st_listening; in_flight := [] |}.



(** A session with two dispatches in flight at once and a frame in
    between; the device was clicked before the first of them. *)
Definition overlapping_sends : list PageEvent :=
  let b := backend_ok [dev1; dev2] [170] in
  [Occurs ClickScan; Settles 0 b; Occurs (ClickItem 0);
   Occurs (ClickSend (js "00 C0")); Occurs (HidData [1]);
   Occurs (ClickSend (js "0A")); Settles 0 b; Settles 0 b; Settles 0 b;
   Settles 0 b].

(* ===================================================================== *)
(** ** The second source file (src/unnamed/part_000) *)
(* ===================================================================== *)

(** A page with a scan button, a send button and a status line. The send
    handler looks its target up in the catalog instead of using a
    selection, and prints the response as a hex dump. Handlers are run to
    completion. *)
Module Part000.

Record HidDevice : Type := {
  path : JsString;
  vendor_id : JsString;
  product_id : JsString;
  product_string : option JsString;
  manufacturer_string : option JsString;
  usage_page : Z
}.

Record Backend : Type := {
  scan_hid_devices : Result (list HidDevice);
  send_hid_command : JsString -> list JsNumber -> Result (list Z)
}.

(** What [#status] shows: the branch that wrote it last and the values
    interpolated into its text; the wording and markup are not
    modelled. *)
Inductive Status : Type :=
  | Waiting
  | Scanning
  | ScanDone (count : nat)
  | ScanFailed (err : JsString)
  | NoTarget
  | Communicating (path40 : JsString)
  | Replied (debugOutput : JsString)
  | NoReply
  | Failed (err : JsString).

Inductive Effect : Type :=
  | InvokeScan
  | InvokeSend (path : JsString) (data : list JsNumber)
  | Alert
  | ConsoleError (err : JsString).

Record State : Type := {
  scannedDevices : list HidDevice;
  statusDiv : Status;
  (** the devices [#deviceList] shows; [None] is the initial placeholder *)
  deviceListDiv : option (list HidDevice);
  effects : list Effect
}.

Definition initial : State :=
  {| scannedDevices := []; statusDiv := Waiting; deviceListDiv := None;
     effects := [] |}.

Definition set_status (s : Status) (st : State) : State :=
  {| scannedDevices := scannedDevices st; statusDiv := s;
     deviceListDiv := deviceListDiv st; effects := effects st |}.

Definition perform (e : Effect) (st : State) : State :=
  {| scannedDevices := scannedDevices st; statusDiv := statusDiv st;
     deviceListDiv := deviceListDiv st; effects := effects st ++ [e] |}.

(** [scanBtn.onclick] *)
Definition scanBtn_onclick (b : Backend) (st : State) : State :=
  let st1 := perform InvokeScan (set_status Scanning st) in
  match scan_hid_devices b with
  | Resolved ds =>
      {| scannedDevices := ds; statusDiv := ScanDone (length ds);
         deviceListDiv := Some ds; effects := effects st1 |}
  | Rejected err => set_status (ScanFailed err) st1
  end.

(** The test of [scannedDevices.find] in [sendBtn.onclick]. *)
Definition is_target (toLowerCase : JsString -> JsString) (d : HidDevice)
  : bool :=
  bool_decide (toLowerCase (vendor_id d) = js "0x2dbf")
  && bool_decide (toLowerCase (product_id d) = js "0x5038")
  && (usage_page d =? 65280).

(** The [for] loop that prints sixteen bytes a line. The index advances
    by sixteen, so [length resultBytes] rounds are more than it can
    take. *)
Fixpoint dump_loop (fuel i : nat) (resultBytes : list Z)
    (debugOutput : JsString) : JsString :=
  match fuel with
  | O => debugOutput
  | S fuel' =>
      if (i <? length resultBytes)%nat then
        let chunk := take 16 (drop i resultBytes) in
        let hexLine := hex_line chunk in
        dump_loop fuel' (i + 16) resultBytes (debugOutput ++ hexLine ++ [10%N])
      else debugOutput
  end.

Definition dump_header (n : nat) : JsString :=
  js "=============== return: " ++ dec (Z.of_nat n)
  ++ js " bytes ===============" ++ [10%N].

Definition debugOutput (resultBytes : list Z) : JsString :=
  dump_loop (length resultBytes) 0 resultBytes
    (dump_header (length resultBytes)).

(** [sendBtn.onclick], with [value] the content of [#hexInput]. *)
Definition sendBtn_onclick (toLowerCase : JsString -> JsString)
    (b : Backend) (value : JsString) (st : State) : State :=
  match List.find (is_target toLowerCase) (scannedDevices st) with
  | None => set_status NoTarget st
  | Some target =>
      let inputStr := trim value in
      match inputStr with
      | [] => perform Alert st
      | _ :: _ =>
          let dataArray := List.map parseInt16 (split_ws inputStr) in
          let st1 := set_status (Communicating (take 40 (path target))) st in
          let st2 := perform (InvokeSend (path target) dataArray) st1 in
          match send_hid_command b (path target) dataArray with
          | Resolved resultBytes =>
              match resultBytes with
              | _ :: _ => set_status (Replied (debugOutput resultBytes)) st2
              | [] => set_status NoReply st2
              end
          | Rejected err =>
              set_status (Failed err) (perform (ConsoleError err) st2)
          end
      end
  end.

(** What can happen on the page, and the states it passes through. *)
Inductive Action : Type :=
  | ClickScan
  | ClickSend (value : JsString).

Definition step (toLowerCase : JsString -> JsString) (b : Backend)
    (a : Action) (st : State) : State :=
  match a with
  | ClickScan => scanBtn_onclick b st
  | ClickSend value => sendBtn_onclick toLowerCase b value st
  end.

Inductive reachable (toLowerCase : JsString -> JsString) : State -> Prop :=
  | reachable_start : reachable toLowerCase initial
  | reachable_step b a st :
      reachable toLowerCase st -> reachable toLowerCase (step toLowerCase b a st).

Definition is_send (e : Effect) : bool :=
  match e with
  | InvokeSend _ _ => true
  | _ => false
  end.

(** The control interface of the target device, and its keyboard
    interface. *)
Definition control : HidDevice :=
  {| path := js "hid#vid_2dbf&pid_5038&mi_01"; vendor_id := js "0x2DBF";
     product_id := js "0x5038"; product_string := Some (js "Keystone");
     manufacturer_string := None; usage_page := 65280 |}.

Definition keyboard : HidDevice :=
  {| path := js "hid#vid_2dbf&pid_5038&mi_00"; vendor_id := js "0x2DBF";
     product_id := js "0x5038"; product_string := Some (js "Keystone");
     manufacturer_string := None; usage_page := 1 |}.

Definition backend_ok (ds : list HidDevice) (resp : list Z) : Backend :=
  {| scan_hid_devices := Resolved ds;
     send_hid_command := fun _ _ => Resolved resp |}.

Definition backend_down (e : JsString) : Backend :=
  {| scan_hid_devices := Rejected e;
     send_hid_command := fun _ _ => Rejected e |}.




End Part000.

(* ===================================================================== *)
(** ** Examples *)
(* ===================================================================== *)

Example split_example :
  split_ws (js "00 C0   0A") = [js "00"; js "C0"; js "0A"]
  /\ split_ws (js " a ") = [[]; js "a"; []]
  /\ split_ws [] = [[]].
Proof. repeat split; reflexivity. Qed.

Example trim_example : trim (js "  00 C0  ") = js "00 C0" /\ trim (js "   ") = [].
Proof. split; reflexivity. Qed.

Example parse_examples :
  List.map parseInt16 [js "C0"; js "0x1f"; js "-a"; js "ZZ"; js "1G"; js "-0"; js "0x"]
  = [Int 192; Int 31; Int (-10); NaN; Int 1; NegZero; NaN].
Proof. reflexivity. Qed.

Example parse_rounds :
  parseInt16 (js "20000000000001") = Int 9007199254740992
  /\ parseInt16 (js "20000000000003") = Int 9007199254740996.
Proof. split; reflexivity. Qed.

Example hex_line_example :
  hex_line [0; 192; 10; 255; 256] = js "00 C0 0A FF 100".
Proof. reflexivity. Qed.

Example dec_example :
  List.map dec [0; 7; 120; -3] = [js "0"; js "7"; js "120"; js "-3"].
Proof. reflexivity. Qed.

(** The end-to-end scenario: scan, select, send [01 02], answer [AA]. *)
Example end_to_end :
  let b := backend_ok [dev1] [170] in
  let st := step b (ClickSend (js "01 02")) st_selected in
  logDiv st =
    [ {| entry_type := info; entry_message := js "Scanning HID bus..." |};
      {| entry_type := info; entry_message := js "Found 1 devices." |};
      {| entry_type := info; entry_message := js "Device selected. Interface: 1" |};
      {| entry_type := outgoing; entry_message := js "[OUT] 01 02" |};
      {| entry_type := info;
         entry_message := js "[SYS] Starting background worker for current OS..." |};
      {| entry_type := info; entry_message := js "[RESULT] AA" |} ]
  /\ List.filter is_invoke (history st) =
    [ EvInvoke ScanHidDevices;
      EvInvoke (StartListening (Some (js "dev-1")));
      EvInvoke (SendHidCommand (Some (js "dev-1")) [Int 1; Int 2]) ].
Proof. split; vm_compute; reflexivity. Qed.

(** A send with nothing selected: one error entry, no backend call. *)
Example send_without_selection :
  let st := step (backend_ok [dev1] [170]) (ClickSend (js "01 02")) (startApp initial) in
  history st =
    [ EvLog {| entry_type := error; entry_message := js "Error: No device selected." |} ].
Proof. vm_compute; reflexivity. Qed.

(** [run] answers every call with nothing scheduled in between. *)
Lemma run_resume (b : Backend) t :
  run b t = run b (resume b (fun st => st) t).
Proof. destruct t; reflexivity. Qed.

(** A frame pushed while the write of a dispatch is pending is logged on
    arrival, between the entries of the dispatch. *)
Example frame_during_pending_write :
  let b := backend_ok [dev1] [170] in
  let listening := resume b (fun st => st) (sendBtn_onclick (js "01 02") st_selected) in
  let st := run b (resume b (hid_data_event [1; 2]) listening) in
  drop 3 (logDiv st) =
    [ out_entry (js "01 02"); sys_entry; incoming_entry [1; 2]; result_entry [170] ].
Proof. vm_compute; reflexivity. Qed.

(* ===================================================================== *)
(** ** White space, trimming and splitting *)
(* ===================================================================== *)

Lemma drop_ws_head c s r : drop_ws s = c :: r -> is_ws c = false.
Proof.
  induction s as [|d s IH]; simpl; [discriminate|].
  destruct (is_ws d) eqn:E; [exact IH|].
  intros H; injection H as -> _; exact E.
Qed.

Lemma drop_ws_snoc c l :
  is_ws c = false -> exists w, drop_ws (l ++ [c]) = w ++ [c].
Proof.
  intros Hc. induction l as [|d l IH]; simpl.
  - rewrite Hc. exists []; reflexivity.
  - destruct (is_ws d); [exact IH|]. exists (d :: l); reflexivity.
Qed.

(** A non-empty trimmed text begins and ends with a unit that is not white
    space. *)
Lemma trim_shape s :
  trim s <> [] ->
  exists c m d, is_ws c = false /\ is_ws d = false
                /\ (trim s = [c] /\ c = d \/ trim s = c :: m ++ [d]).
Proof.
  unfold trim. intros Hne.
  destruct (drop_ws s) as [|c u] eqn:Eu; [simpl in Hne; congruence|].
  pose proof (drop_ws_head _ _ _ Eu) as Hc.
  simpl rev in *.
  destruct (drop_ws_snoc c (rev u) Hc) as [w Hw].
  rewrite Hw in *. rewrite rev_app_distr in *. simpl in *.
  destruct w as [|d w'] eqn:Ew.
  - exists c, [], c. auto.
  - pose proof (drop_ws_head _ _ _ Hw) as Hd.
    exists c, (rev w'), d. repeat split; auto.
Qed.

Lemma same_tokens_filter l l' :
  same_tokens l l' -> List.filter nonempty l = List.filter nonempty l'.
Proof.
  intros (t & ts & ts' & -> & -> & H). simpl. rewrite H. reflexivity.
Qed.

Lemma same_tokens_ws l l' :
  same_tokens l l' -> same_tokens ([] :: l) ([] :: l').
Proof.
  intros H. exists [], l, l'. repeat split. apply same_tokens_filter, H.
Qed.

Lemma same_tokens_cons c l l' :
  same_tokens l l' ->
  same_tokens (match l with t :: ts => (c :: t) :: ts | [] => [[c]] end)
              (match l' with t :: ts => (c :: t) :: ts | [] => [[c]] end).
Proof.
  intros (t & ts & ts' & -> & -> & H). exists (c :: t), ts, ts'. auto.
Qed.

(** [split] on runs differs from cutting at every unit only in empty
    pieces after the first. *)
Lemma split_ws_pieces s : same_tokens (split_ws s) (pieces s).
Proof.
  induction s as [|c s IH].
  - exists [], [], []. auto.
  - cbn [split_ws pieces]. destruct (is_ws c) eqn:Ec.
    + destruct s as [|c' s']; [apply same_tokens_ws, IH|].
      destruct (is_ws c') eqn:Ec'; [|apply same_tokens_ws, IH].
      destruct IH as (t & ts & ts' & E1 & E2 & H).
      assert (t = []) as ->.
      { cbn [pieces] in E2. rewrite Ec' in E2. congruence. }
      rewrite E1, E2. exists [], ts, ([] :: ts'). auto.
    + apply same_tokens_cons, IH.
Qed.

Lemma split_ws_tokens s : List.filter nonempty (split_ws s) = tokens s.
Proof. apply same_tokens_filter, split_ws_pieces. Qed.

(** In a text that ends with a unit that is not white space every piece
    but the first is non-empty, and so is the first when the text does not
    begin with white space. *)
Lemma split_ws_ends m d :
  is_ws d = false ->
  exists t ts,
    split_ws (m ++ [d]) = t :: ts
    /\ Forall (fun x => nonempty x = true) ts
    /\ (match m ++ [d] with c :: _ => is_ws c = false | [] => True end ->
        nonempty t = true).
Proof.
  intros Hd. induction m as [|c m IH].
  - simpl. rewrite Hd. exists [d], []. auto.
  - destruct IH as (t & ts & E & Hts & Ht).
    change ((c :: m) ++ [d]) with (c :: (m ++ [d])).
    cbn [split_ws]. rewrite E.
    destruct (is_ws c) eqn:Ec.
    + destruct (m ++ [d]) as [|c' r] eqn:Em.
      { destruct m; discriminate. }
      destruct (is_ws c') eqn:Ec'.
      * exists t, ts. repeat split; auto; congruence.
      * exists [], (t :: ts). repeat split; [|congruence].
        constructor; [apply Ht; reflexivity|exact Hts].
    + exists (c :: t), ts. auto.
Qed.

Lemma filter_all_true {A} (f : A -> bool) l :
  Forall (fun x => f x = true) l -> List.filter f l = l.
Proof.
  induction 1 as [|x l Hx _ IH]; simpl; [reflexivity|].
  rewrite Hx, IH. reflexivity.
Qed.

(** On a trimmed, non-empty text [split] returns exactly the tokens. *)
Lemma split_ws_trim s : trim s <> [] -> split_ws (trim s) = tokens (trim s).
Proof.
  intros Hne. rewrite <- split_ws_tokens. symmetry. apply filter_all_true.
  destruct (trim_shape s Hne) as (c & m & d & Hc & Hd & [[E ->] | E]); rewrite E.
  - simpl. rewrite Hc. auto.
  - destruct (split_ws_ends (c :: m) d Hd) as (t & ts & Es & Hts & Ht).
    simpl in Es. simpl. rewrite Es. constructor; auto.
Qed.

Lemma drop_ws_split s :
  exists pre, s = pre ++ drop_ws s /\ forallb is_ws pre = true.
Proof.
  induction s as [|c s (pre & E & H)]; simpl.
  - exists []. auto.
  - destruct (is_ws c) eqn:Ec.
    + exists (c :: pre). simpl. rewrite Ec, <- E. auto.
    + exists []. auto.
Qed.

(** Trimming removes a white-space prefix and a white-space suffix. *)
Lemma trim_split s :
  exists pre post,
    s = pre ++ trim s ++ post
    /\ forallb is_ws pre = true /\ forallb is_ws post = true.
Proof.
  destruct (drop_ws_split s) as (pre & E & Hpre).
  destruct (drop_ws_split (rev (drop_ws s))) as (q & Eq & Hq).
  exists pre, (rev q). split; [|split; [exact Hpre|]].
  - unfold trim. rewrite <- rev_app_distr, <- Eq, rev_involutive. exact E.
  - rewrite forallb_forall in *. intros x Hx. apply Hq, in_rev, Hx.
Qed.

Lemma tokens_ws_prefix pre s :
  forallb is_ws pre = true -> tokens (pre ++ s) = tokens s.
Proof.
  induction pre as [|c pre IH]; simpl; [reflexivity|].
  intros [Hc H]%andb_prop. unfold tokens in *. cbn [pieces]. rewrite Hc.
  simpl. apply IH, H.
Qed.

Lemma pieces_all_ws post :
  forallb is_ws post = true -> List.filter nonempty (pieces post) = [].
Proof.
  induction post as [|c post IH]; simpl; [reflexivity|].
  intros [Hc H]%andb_prop. rewrite Hc. simpl. apply IH, H.
Qed.

Lemma pieces_ws_suffix m post :
  forallb is_ws post = true -> same_tokens (pieces (m ++ post)) (pieces m).
Proof.
  intros H. induction m as [|c m IH].
  - destruct post as [|w post]; simpl.
    + exists [], [], []. auto.
    + simpl in H. apply andb_prop in H as [Hw H]. rewrite Hw.
      exists [], (pieces post), []. repeat split. apply pieces_all_ws, H.
  - change ((c :: m) ++ post) with (c :: (m ++ post)). cbn [pieces].
    destruct (is_ws c); [apply same_tokens_ws, IH | apply same_tokens_cons, IH].
Qed.

(** Trimming does not change the tokens. *)
Lemma tokens_trim s : tokens (trim s) = tokens s.
Proof.
  destruct (trim_split s) as (pre & post & E & Hpre & Hpost).
  rewrite E at 2. rewrite tokens_ws_prefix by exact Hpre.
  symmetry. apply same_tokens_filter, pieces_ws_suffix, Hpost.
Qed.

(** A token is non-empty and free of white space. *)
Lemma pieces_no_ws s : Forall (fun t => existsb is_ws t = false) (pieces s).
Proof.
  induction s as [|c s IH]; simpl.
  - constructor; auto.
  - destruct (is_ws c) eqn:Ec.
    + constructor; auto.
    + destruct (pieces s) as [|t ts].
      * constructor; [simpl; rewrite Ec|]; auto.
      * inversion IH; subst. constructor; [|assumption].
        simpl. rewrite Ec. assumption.
Qed.

Lemma tokens_wellformed s :
  Forall (fun t => t <> [] /\ existsb is_ws t = false) (tokens s).
Proof.
  unfold tokens. pose proof (pieces_no_ws s) as H.
  induction H as [|t l Ht _ IH]; simpl; [constructor|].
  destruct t; simpl; [exact IH|]. constructor; [split; [discriminate|exact Ht]|exact IH].
Qed.

(* ===================================================================== *)
(** ** Parsing and printing hexadecimal *)
(* ===================================================================== *)

Ltac bool_to_prop :=
  repeat (progress
    rewrite ?andb_true_iff, ?orb_true_iff, ?andb_false_iff, ?orb_false_iff,
      ?N.leb_le, ?N.leb_gt, ?N.eqb_eq, ?N.eqb_neq in * ).

Lemma hex_digit_range c d : hex_digit c = Some d -> 0 <= d < 16.
Proof.
  unfold hex_digit.
  destruct ((48 <=? c) && (c <=? 57))%N eqn:E1;
    [|destruct ((65 <=? c) && (c <=? 70))%N eqn:E2;
      [|destruct ((97 <=? c) && (c <=? 102))%N eqn:E3]];
    intros H; inversion H; subst; bool_to_prop; lia.
Qed.

Lemma is_hex_units c :
  is_hex c = true ->
  is_ws c = false /\ c <> 45%N /\ c <> 43%N /\ c <> 120%N /\ c <> 88%N.
Proof.
  unfold is_hex, hex_digit, is_ws.
  destruct ((48 <=? c) && (c <=? 57))%N eqn:E1;
    [|destruct ((65 <=? c) && (c <=? 70))%N eqn:E2;
      [|destruct ((97 <=? c) && (c <=? 102))%N eqn:E3; [|discriminate]]];
    intros _; bool_to_prop; lia.
Qed.

Lemma hex_value_bound s :
  forallb is_hex s = true -> 0 <= hex_value s < 16 ^ Z.of_nat (length s).
Proof.
  induction s as [|c s IH]; simpl hex_value; simpl forallb; [simpl; lia|].
  intros [Hc Hs]%andb_prop. specialize (IH Hs).
  unfold is_hex in Hc. destruct (hex_digit c) as [d|] eqn:Ed; [|discriminate].
  apply hex_digit_range in Ed. simpl default.
  cbn [length]. rewrite Nat2Z.inj_succ, Z.pow_succ_r by lia. nia.
Qed.

Lemma hex_prefix_all acc seen s :
  forallb is_hex s = true -> (seen = true \/ s <> []) ->
  hex_prefix acc seen s = Some (acc * 16 ^ Z.of_nat (length s) + hex_value s).
Proof.
  revert acc seen. induction s as [|c s IH]; intros acc seen Hs Hne.
  - destruct Hne as [-> | ?]; [|congruence]. simpl. f_equal. lia.
  - simpl in Hs. apply andb_prop in Hs as [Hc Hs].
    unfold is_hex in Hc. cbn [hex_prefix hex_value].
    destruct (hex_digit c) as [d|] eqn:Ed; [|discriminate].
    rewrite IH by auto. simpl default. f_equal.
    cbn [length]. rewrite Nat2Z.inj_succ, Z.pow_succ_r by lia. ring.
Qed.

Lemma round_double_exact m : 0 < m < 2 ^ 53 -> round_double m = Some m.
Proof.
  intros [H0 H]. unfold round_double.
  apply Z.log2_lt_pow2 in H; [|exact H0].
  destruct (Z.log2 m + 1 <=? 53) eqn:E; [reflexivity|].
  apply Z.leb_gt in E. lia.
Qed.

(** On one to thirteen hexadecimal digits [parseInt(.., 16)] is the
    positional value. *)
Lemma parseInt16_hex t :
  t <> [] -> forallb is_hex t = true -> (length t <= 13)%nat ->
  parseInt16 t = Int (hex_value t).
Proof.
  intros Hne Hall Hlen.
  pose proof (hex_value_bound t Hall) as Hb.
  assert (16 ^ Z.of_nat (length t) <= 16 ^ 13) as Hp
    by (apply Z.pow_le_mono_r; lia).
  destruct t as [|c r]; [congruence|].
  pose proof Hall as Hall'. simpl in Hall'. apply andb_prop in Hall' as [Hc Hr].
  destruct (is_hex_units c Hc) as (Hws & Hm & Hp' & _).
  unfold parseInt16. cbn [drop_ws]. rewrite Hws.
  apply N.eqb_neq in Hm, Hp'. rewrite Hm, Hp'. cbv beta iota zeta.
  assert (hex_prefix 0 false (c :: r) = Some (hex_value (c :: r))) as Hv.
  { rewrite hex_prefix_all by (auto; right; discriminate). reflexivity. }
  assert (match hex_prefix 0 false (c :: r) with
          | Some m =>
              if m =? 0 then Int 0
              else match round_double m with
                   | Some v => Int v
                   | None => PosInf
                   end
          | None => NaN
          end = Int (hex_value (c :: r))) as Hgoal.
  { rewrite Hv. destruct (hex_value (c :: r) =? 0) eqn:E0.
    - apply Z.eqb_eq in E0. rewrite E0. reflexivity.
    - apply Z.eqb_neq in E0. rewrite round_double_exact; [reflexivity|].
      change (2 ^ 53) with (2 * 16 ^ 13). lia. }
  destruct r as [|x r0]; [exact Hgoal|].
  simpl in Hr. apply andb_prop in Hr as [Hx _].
  destruct (is_hex_units x Hx) as (_ & _ & _ & H1 & H2).
  apply N.eqb_neq in H1, H2. rewrite H1, H2, andb_false_r. exact Hgoal.
Qed.

Lemma hex_pair_checked :
  forallb (fun n =>
             let b := Z.of_nat n in
             bool_decide (padStart2 (toString16_upper b) = hex_pair b)
             && forallb is_upper_hex (hex_pair b))
          (seq 0 256) = true.
Proof. vm_compute. reflexivity. Qed.

(** A byte prints as exactly two upper-case hexadecimal digits. *)
Lemma byte_hex_pair b :
  is_byte b = true ->
  padStart2 (toString16_upper b) = hex_pair b
  /\ forallb is_upper_hex (hex_pair b) = true.
Proof.
  unfold is_byte. intros [H0 H1]%andb_prop.
  apply Z.leb_le in H0. apply Z.ltb_lt in H1.
  pose proof hex_pair_checked as H. rewrite forallb_forall in H.
  specialize (H (Z.to_nat b)). rewrite Z2Nat.id in H by lia.
  cbv zeta in H. rewrite andb_true_iff, bool_decide_eq_true in H.
  apply H, in_seq. lia.
Qed.

Lemma hex_value_checked :
  forallb (fun n => hex_value (hex_pair (Z.of_nat n)) =? Z.of_nat n) (seq 0 256)
  = true.
Proof. vm_compute. reflexivity. Qed.

(** The two digits of a byte read back as the byte. *)
Lemma byte_hex_value b : is_byte b = true -> hex_value (hex_pair b) = b.
Proof.
  unfold is_byte. intros [H0 H1]%andb_prop.
  apply Z.leb_le in H0. apply Z.ltb_lt in H1.
  pose proof hex_value_checked as H. rewrite forallb_forall in H.
  specialize (H (Z.to_nat b)). rewrite Z2Nat.id in H by lia.
  apply Z.eqb_eq, H, in_seq. lia.
Qed.

Lemma hex_line_bytes payload :
  forallb is_byte payload = true ->
  hex_line payload = join_sp (List.map hex_pair payload).
Proof.
  unfold hex_line. intros H. f_equal.
  induction payload as [|b l IH]; simpl; [reflexivity|].
  simpl in H. apply andb_prop in H as [Hb Hl].
  rewrite IH by exact Hl. f_equal. apply byte_hex_pair, Hb.
Qed.

(* ===================================================================== *)
(** ** Handlers as trace extensions *)
(* ===================================================================== *)

Lemma log_entries_app evs evs' :
  log_entries (evs ++ evs') = log_entries evs ++ log_entries evs'.
Proof. apply omap_app. Qed.

Lemma extend_extend evs evs' st :
  extend evs' (extend evs st) = extend (evs ++ evs') st.
Proof.
  unfold extend. simpl. rewrite log_entries_app, !app_assoc. reflexivity.
Qed.

Lemma addLog_extend m t st :
  addLog m t st = extend [EvLog {| entry_type := t; entry_message := m |}] st.
Proof. reflexivity. Qed.

Lemma record_invoke_extend c st : record (EvInvoke c) st = extend [EvInvoke c] st.
Proof.
  unfold record, extend. simpl. rewrite app_nil_r. reflexivity.
Qed.

Lemma new_events_extend evs st : new_events st (extend evs st) = evs.
Proof. unfold new_events. simpl. apply drop_app_length. Qed.

Lemma new_events_listeners evs X st :
  new_events st (set_activeListeners X (extend evs st)) = evs.
Proof. unfold new_events. simpl. apply drop_app_length. Qed.

Lemma extend_set_scannedDevices evs v st :
  extend evs (set_scannedDevices v st) = set_scannedDevices v (extend evs st).
Proof. reflexivity. Qed.

Lemma extend_set_deviceItems evs v st :
  extend evs (set_deviceItems v st) = set_deviceItems v (extend evs st).
Proof. reflexivity. Qed.

Lemma extend_set_activeListeners evs X st :
  extend evs (set_activeListeners X st) = set_activeListeners X (extend evs st).
Proof. reflexivity. Qed.

Lemma set_activeListeners_same st :
  set_activeListeners (activeListeners st) st = st.
Proof. destruct st; reflexivity. Qed.

(** A scan click, run to completion. *)
Lemma scan_run (b : Backend) st :
  run b (scanBtn_onclick st) =
  match b ScanHidDevices with
  | Resolved ds =>
      set_deviceItems (List.map path ds)
        (set_scannedDevices ds
           (extend [EvLog scanning_entry; EvInvoke ScanHidDevices;
                    EvLog (found_entry (length ds))] st))
  | Rejected e =>
      extend [EvLog scanning_entry; EvInvoke ScanHidDevices;
              EvLog (scan_error_entry e)] st
  end.
Proof.
  unfold scanBtn_onclick, invoke. cbn [run].
  rewrite addLog_extend, record_invoke_extend, extend_extend.
  destruct (b ScanHidDevices) as [ds|e]; cbv zeta; rewrite addLog_extend.
  - unfold renderDeviceList.
    rewrite extend_set_deviceItems, extend_set_scannedDevices, extend_extend.
    reflexivity.
  - rewrite extend_extend. reflexivity.
Qed.

(** The write of a dispatch, run to completion. *)
Lemma send_command_run (b : Backend) data p st :
  selectedDevicePath st = Some p ->
  run b (send_command data st) =
  let st' := extend (write_events b p data) st in
  if is_resolved (b (SendHidCommand (Some p) data)) then st'
  else set_activeListeners (activeListeners st ∖ {[Some p]}) st'.
Proof.
  intros Hsel. unfold send_command, send_catch, invoke, write_events. cbn [run].
  rewrite record_invoke_extend, Hsel.
  destruct (b (SendHidCommand (Some p) data)) as [[|x resp]|e];
    cbn [run is_resolved]; cbv zeta; rewrite ?addLog_extend, ?extend_extend;
    try reflexivity.
  cbn [selectedDevicePath activeListeners extend]. rewrite Hsel. reflexivity.
Qed.

Lemma send_no_selection (b : Backend) text st :
  no_selection (selectedDevicePath st) = true ->
  run b (sendBtn_onclick text st) =
  extend [EvLog no_selection_entry] st.
Proof.
  intros H. unfold sendBtn_onclick. rewrite H. reflexivity.
Qed.

Lemma send_blank (b : Backend) text st :
  no_selection (selectedDevicePath st) = false -> trim text = [] ->
  run b (sendBtn_onclick text st) = st.
Proof.
  intros H E. unfold sendBtn_onclick. rewrite H, E. reflexivity.
Qed.

Lemma no_selection_some p : p <> [] -> no_selection (Some p) = false.
Proof. destruct p; [congruence|reflexivity]. Qed.

(** A dispatch, run to completion: the events are those of
    [dispatch_events], the registry is that of [dispatch_listeners], and
    nothing else changes. *)
Lemma send_run (b : Backend) text p st :
  selectedDevicePath st = Some p -> p <> [] -> trim text <> [] ->
  run b (sendBtn_onclick text st) =
  set_activeListeners (dispatch_listeners b p (trim text) (activeListeners st))
    (extend (dispatch_events b p (trim text)
               (bool_decide (Some p ∈ activeListeners st))) st).
Proof.
  intros Hsel Hp Hne. unfold sendBtn_onclick.
  rewrite Hsel, (no_selection_some p Hp).
  destruct (trim text) as [|h hs] eqn:Eh; [congruence|]. cbv zeta.
  set (hexCmd := h :: hs) in *.
  unfold dispatch_listeners, dispatch_ok, dispatch_events.
  rewrite addLog_extend. fold (out_entry hexCmd).
  cbn [selectedDevicePath activeListeners extend]. rewrite Hsel.
  destruct (decide (Some p ∈ activeListeners st)) as [Hin|Hnin].
  - rewrite (bool_decide_eq_true_2 _ Hin). cbn [orb andb].
    rewrite (send_command_run b _ p) by exact Hsel. cbv zeta.
    rewrite extend_extend. cbn [activeListeners extend app].
    destruct (is_resolved _); [|reflexivity].
    rewrite (subseteq_union_1_L {[Some p]} (activeListeners st))
      by (apply singleton_subseteq_l, Hin).
    symmetry. apply (set_activeListeners_same (extend _ st)).
  - rewrite (bool_decide_eq_false_2 _ Hnin). cbn [orb].
    rewrite addLog_extend, extend_extend. fold sys_entry.
    unfold invoke. cbn [run]. rewrite record_invoke_extend, extend_extend.
    cbn [selectedDevicePath extend app]. rewrite Hsel.
    destruct (b (StartListening (Some p))) as [[]|e]; cbn [is_resolved andb].
    + rewrite (send_command_run b _ p) by exact Hsel. cbv zeta.
      cbn [activeListeners set_activeListeners extend].
      rewrite extend_set_activeListeners, extend_extend.
      destruct (is_resolved _); [reflexivity|].
      rewrite difference_union_distr_l_L, difference_diag_L, (left_id_L ∅ (∪)).
      reflexivity.
    + unfold send_catch. rewrite addLog_extend, extend_extend. cbn [run].
      fold (failure_entry e). cbn [selectedDevicePath activeListeners extend].
      rewrite Hsel. reflexivity.
Qed.

(** A click on a device item: the selection is assigned first; the tag
    and the log follow only when the catalog has the path. *)
Lemma device_item_click_run p st :
  device_item_click p st =
  set_deviceItems (List.map path (scannedDevices st))
    match List.find (fun d => bool_decide (Some (path d) = path_or_null p))
                    (scannedDevices st) with
    | Some d =>
        extend [EvLog (selected_entry d)]
          (set_selectedTag
             (js "Active: " ++ str_or_null (product_string d)
              ++ js " (IF:" ++ dec (interface_number d) ++ js ")")
             (set_selectedDevicePath (path_or_null p) st))
    | None => set_selectedDevicePath (path_or_null p) st
    end.
Proof.
  unfold device_item_click. cbv zeta.
  cbn [selectedDevicePath scannedDevices set_selectedDevicePath].
  destruct (List.find _ _) as [d|]; [rewrite addLog_extend|]; reflexivity.
Qed.

(** A send click leaves the catalog, the selection, the device list and
    the subscription alone, whatever the backend answers. *)
Lemma send_frame (b : Backend) text st :
  let st' := run b (sendBtn_onclick text st) in
  scannedDevices st' = scannedDevices st
  /\ selectedDevicePath st' = selectedDevicePath st
  /\ deviceItems st' = deviceItems st
  /\ hidHandlers st' = hidHandlers st
  /\ selectedTag st' = selectedTag st.
Proof.
  cbv zeta. destruct (no_selection (selectedDevicePath st)) eqn:Hno.
  - rewrite send_no_selection by exact Hno. auto.
  - destruct (trim text) as [|h hs] eqn:Eh.
    + rewrite send_blank by assumption. auto.
    + destruct (selectedDevicePath st) as [p|] eqn:Hsel; [|discriminate].
      assert (p <> []) as Hp by (intros ->; discriminate).
      assert (trim text <> []) as Hne by congruence.
      rewrite (send_run b text p st Hsel Hp Hne). auto.
Qed.

Lemma scan_frame (b : Backend) st :
  let st' := run b (scanBtn_onclick st) in
  selectedDevicePath st' = selectedDevicePath st
  /\ activeListeners st' = activeListeners st
  /\ hidHandlers st' = hidHandlers st
  /\ selectedTag st' = selectedTag st.
Proof.
  cbv zeta. rewrite scan_run. destruct (b ScanHidDevices); auto.
Qed.

Lemma path_or_null_nonempty p : path_or_null p <> Some [].
Proof. destruct p; simpl; congruence. Qed.

Lemma hid_data_event_one payload st :
  hidHandlers st = 1%nat ->
  hid_data_event payload st = extend [EvLog (incoming_entry payload)] st.
Proof. unfold hid_data_event. intros ->. reflexivity. Qed.

Lemma session_inv_start : session_inv (startApp initial).
Proof. repeat split. discriminate. Qed.

Lemma session_inv_step (b : Backend) a st :
  session_inv st -> session_inv (step b a st).
Proof.
  unfold session_inv. intros (Hh & Hi & Hs).
  destruct a as [|i|text| |payload]; cbn [step].
  - destruct (scan_frame b st) as (E1 & _ & E3 & _).
    split; [congruence|]. split; [|congruence].
    rewrite scan_run. destruct (b ScanHidDevices); [reflexivity|exact Hi].
  - destruct (deviceItems st !! i) as [p|]; [|auto].
    rewrite device_item_click_run.
    destruct (List.find _ _);
      (split; [exact Hh|]; split; [reflexivity|apply path_or_null_nonempty]).
  - destruct (send_frame b text st) as (E1 & E2 & E3 & E4 & _).
    split; [congruence|]. split; congruence.
  - auto.
  - rewrite hid_data_event_one by exact Hh. auto.
Qed.

(** Every state of a session satisfies the invariant. *)
Lemma reachable_inv st : reachable st -> session_inv st.
Proof.
  induction 1 as [|b a st _ IH]; [apply session_inv_start|].
  apply session_inv_step, IH.
Qed.

Lemma st_selected_reachable : reachable st_selected.
Proof. unfold st_selected. do 2 apply reachable_step. apply reachable_start. Qed.

Lemma st_stale_reachable : reachable st_stale.
Proof. unfold st_stale. apply reachable_step, st_selected_reachable. Qed.

Lemma page_run_reachable evs pg :
  page_reachable pg -> page_reachable (page_run evs pg).
Proof.
  revert pg. induction evs as [|ev evs IH]; intros pg H; simpl; [exact H|].
  apply IH, page_next, H.
Qed.

(* ===================================================================== *)
(** ** The device catalog: scanning and selecting *)
(* ===================================================================== *)

(** C4. After a successful scan the catalog is exactly the sequence of
    descriptors that scan returned, whatever the catalog held before; in
    particular after two successful scans S1 then S2 the catalog is what
    S2 returned, and the device list shows exactly those descriptors. *)
Theorem scan_replaces_catalog (b1 b2 : Backend) ds1 ds2 st :
  b1 ScanHidDevices = Resolved ds1 ->
  b2 ScanHidDevices = Resolved ds2 ->
  let st1 := run b1 (scanBtn_onclick st) in
  let st2 := run b2 (scanBtn_onclick st1) in
  scannedDevices st1 = ds1
  /\ scannedDevices st2 = ds2
  /\ deviceItems st2 = List.map path ds2.
Proof.
  intros H1 H2. cbv zeta. rewrite !scan_run, H1, H2. auto.
Qed.

Lemma scan_replaces_catalog_witness :
  let b1 := backend_ok [dev1; dev_nopath] [] in
  let b2 := backend_ok [dev_nopath] [] in
  b1 ScanHidDevices = Resolved [dev1; dev_nopath]
  /\ b2 ScanHidDevices = Resolved [dev_nopath]
  /\ scannedDevices (run b2 (scanBtn_onclick (run b1 (scanBtn_onclick st_selected))))
     = [dev_nopath].
Proof.
  cbv zeta. split; [reflexivity|]. split; [reflexivity|].
  apply (scan_replaces_catalog (backend_ok [dev1; dev_nopath] [])
           (backend_ok [dev_nopath] []) [dev1; dev_nopath] [dev_nopath]
           st_selected eq_refl eq_refl).
Defined.

(** C5. When the enumeration call is rejected, the catalog, the device
    list, the selection and the listener registry are unchanged; the only
    trace of the failure is one [error] entry, appended after the [info]
    entry that announced the scan; and a later scan that succeeds installs
    its result as usual. *)
Theorem scan_failure_keeps_catalog (b : Backend) e st :
  b ScanHidDevices = Rejected e ->
  let st' := run b (scanBtn_onclick st) in
  scannedDevices st' = scannedDevices st
  /\ deviceItems st' = deviceItems st
  /\ selectedDevicePath st' = selectedDevicePath st
  /\ activeListeners st' = activeListeners st
  /\ logDiv st' = logDiv st ++ [scanning_entry; scan_error_entry e]
  /\ new_events st st' =
       [EvLog scanning_entry; EvInvoke ScanHidDevices; EvLog (scan_error_entry e)]
  /\ entry_type (scan_error_entry e) = error
  /\ forall (b' : Backend) ds,
       b' ScanHidDevices = Resolved ds ->
       scannedDevices (run b' (scanBtn_onclick st')) = ds.
Proof.
  intros H. cbv zeta. rewrite scan_run, H.
  repeat split; [apply new_events_extend|].
  intros b' ds H'. rewrite scan_run, H'. reflexivity.
Qed.

Lemma scan_failure_keeps_catalog_witness :
  let b := backend_down (js "bus busy") in
  b ScanHidDevices = Rejected (js "bus busy")
  /\ scannedDevices (run b (scanBtn_onclick st_selected)) = [dev1]
  /\ logDiv (run b (scanBtn_onclick st_selected)) =
       logDiv st_selected ++ [scanning_entry; scan_error_entry (js "bus busy")].
Proof.
  cbv zeta. split; [reflexivity|].
  pose proof (scan_failure_keeps_catalog (backend_down (js "bus busy"))
                (js "bus busy") st_selected eq_refl) as H.
  cbv zeta in H. destruct H as (H1 & _ & _ & _ & H5 & _).
  split; [rewrite H1; reflexivity|exact H5].
Defined.

(** C3, as the claim states it, fails: a session that scans, selects
    [dev-1] and rescans while the device is gone keeps [dev-1] selected
    over an empty catalog. *)
Lemma stale_selection_counterexample :
  reachable st_stale
  /\ selectedDevicePath st_stale = Some (js "dev-1")
  /\ scannedDevices st_stale = []
  /\ ~ selection_in_catalog st_stale.
Proof.
  split; [apply st_stale_reachable|].
  split; [reflexivity|]. split; [reflexivity|].
  unfold selection_in_catalog. simpl. tauto.
Qed.

Lemma scan_await st :
  scanBtn_onclick st =
  Await ScanHidDevices
        (extend [EvLog scanning_entry; EvInvoke ScanHidDevices] st) scan_then.
Proof.
  unfold scanBtn_onclick, invoke. cbv zeta.
  rewrite addLog_extend, record_invoke_extend, extend_extend. reflexivity.
Qed.

Lemma scan_then_done r st :
  scan_then r st =
  Done match r with
       | Resolved ds =>
           set_deviceItems (List.map path ds)
             (set_scannedDevices ds (extend [EvLog (found_entry (length ds))] st))
       | Rejected e => extend [EvLog (scan_error_entry e)] st
       end.
Proof. destruct r as [ds|e]; reflexivity. Qed.

(** C3, amended. The selection is not tied to the catalog. A scan,
    successful or not, never changes the selection: not when run to its
    end, and in neither of its two parts, before and after the [await],
    whatever the globals are when it resumes. So after a rescan whose
    result does not hold the selected path, the catalog is the result, the
    selection is still that path, and it names no descriptor of the
    catalog. *)
Theorem rescan_keeps_selection (b : Backend) st :
  selectedDevicePath (run b (scanBtn_onclick st)) = selectedDevicePath st
  /\ (exists st1,
        scanBtn_onclick st = Await ScanHidDevices st1 scan_then
        /\ selectedDevicePath st1 = selectedDevicePath st)
  /\ (forall r st', exists st'',
        scan_then r st' = Done st''
        /\ selectedDevicePath st'' = selectedDevicePath st')
  /\ (forall ds p,
        b ScanHidDevices = Resolved ds -> selectedDevicePath st = Some p ->
        ~ In p (List.map path ds) ->
        scannedDevices (run b (scanBtn_onclick st)) = ds
        /\ selectedDevicePath (run b (scanBtn_onclick st)) = Some p
        /\ ~ selection_in_catalog (run b (scanBtn_onclick st))).
Proof.
  split; [apply scan_frame|]. split.
  - eexists. split; [apply scan_await|reflexivity].
  - split.
    + intros r st'. eexists. split; [apply scan_then_done|].
      destruct r; reflexivity.
    + intros ds p Hb Hsel Hnin. rewrite scan_run, Hb.
      unfold selection_in_catalog.
      cbn [scannedDevices selectedDevicePath set_deviceItems set_scannedDevices
           extend]. rewrite Hsel. auto.
Qed.

Example rescan_example :
  selectedDevicePath (run (backend_ok [] []) (scanBtn_onclick st_selected))
  = Some (js "dev-1")
  /\ scannedDevices (run (backend_ok [] []) (scanBtn_onclick st_selected)) = [].
Proof. split; reflexivity. Qed.







(* ===================================================================== *)
(** ** Encoding a command *)
(* ===================================================================== *)

Lemma concat_nonempty (l : list JsString) :
  concat (List.filter nonempty l) = concat l.
Proof.
  induction l as [|t l IH]; simpl; [reflexivity|].
  destruct t; simpl; [exact IH|]. rewrite IH. reflexivity.
Qed.

Lemma pieces_concat s :
  concat (pieces s) = List.filter (fun c => negb (is_ws c)) s.
Proof.
  induction s as [|c s IH]; simpl; [reflexivity|].
  destruct (is_ws c); simpl; [exact IH|].
  destruct (pieces s); simpl in *; rewrite <- IH; reflexivity.
Qed.

(** The command array of a non-blank text is [parseInt(.., 16)] of its
    tokens. *)
Lemma cmdArray_tokens text :
  trim text <> [] -> cmdArray (trim text) = List.map parseInt16 (tokens text).
Proof.
  intros Hne. unfold cmdArray. rewrite split_ws_trim by exact Hne.
  rewrite tokens_trim. reflexivity.
Qed.

(** C7. The command array is got by cutting the trimmed text at runs of
    white space and giving every piece to [parseInt(.., 16)]: the pieces
    are exactly the tokens of the text (non-empty, free of white space,
    and together all of its other units, in order), and a token of one to
    thirteen hexadecimal digits is parsed to its base-16 value. In
    particular [00 C0 0A 00 00] encodes to 0x00, 0xC0, 0x0A, 0x00, 0x00. *)
Theorem encode_splits_and_parses text :
  trim text <> [] ->
  cmdArray (trim text) = List.map parseInt16 (tokens text)
  /\ Forall (fun t => t <> [] /\ existsb is_ws t = false) (tokens text)
  /\ concat (tokens text) = List.filter (fun c => negb (is_ws c)) text
  /\ (forall t, In t (tokens text) -> forallb is_hex t = true ->
        (length t <= 13)%nat -> parseInt16 t = Int (hex_value t))
  /\ cmdArray (trim (js "00 C0 0A 00 00"))
     = [Int 0; Int 192; Int 10; Int 0; Int 0].
Proof.
  intros Hne. split; [|split; [|split; [|split]]].
  - apply cmdArray_tokens, Hne.
  - apply tokens_wellformed.
  - unfold tokens. rewrite concat_nonempty. apply pieces_concat.
  - intros t Hin Hhex Hlen. apply parseInt16_hex; auto.
    pose proof (tokens_wellformed text) as Hw. rewrite List.Forall_forall in Hw.
    apply (Hw t Hin).
  - reflexivity.
Qed.

Lemma encode_splits_and_parses_witness :
  trim (js "  1f   0A ") <> []
  /\ cmdArray (trim (js "  1f   0A ")) = [Int 31; Int 10]
  /\ tokens (js "  1f   0A ") = [js "1f"; js "0A"].
Proof.
  split; [discriminate|].
  destruct (encode_splits_and_parses (js "  1f   0A ")) as (H & _);
    [discriminate|].
  split; [rewrite H|]; reflexivity.
Defined.

(* ===================================================================== *)
(** ** Dispatching a command *)
(* ===================================================================== *)

Lemma starts_app evs evs' : starts (evs ++ evs') = (starts evs + starts evs')%nat.
Proof. unfold starts. rewrite List.filter_app, List.length_app. reflexivity. Qed.

Lemma write_events_starts (b : Backend) p data :
  starts (write_events b p data) = 0%nat.
Proof.
  unfold write_events.
  destruct (b (SendHidCommand (Some p) data)) as [[|x resp]|e]; reflexivity.
Qed.

Lemma dispatch_events_starts (b : Backend) p hexCmd listened :
  starts (dispatch_events b p hexCmd listened) = if listened then 0%nat else 1%nat.
Proof.
  unfold dispatch_events. destruct listened.
  - apply (write_events_starts b p).
  - destruct (b (StartListening (Some p))) as [[]|e]; [|reflexivity].
    change (S (starts (write_events b p (cmdArray hexCmd))) = 1%nat).
    rewrite write_events_starts. reflexivity.
Qed.

Lemma write_events_no_start (b : Backend) p data q :
  ~ In (EvInvoke (StartListening q)) (write_events b p data).
Proof.
  unfold write_events.
  destruct (b (SendHidCommand (Some p) data)) as [[|x resp]|e]; simpl;
    intuition discriminate.
Qed.

Lemma dispatch_events_start (b : Backend) p hexCmd listened q :
  In (EvInvoke (StartListening q)) (dispatch_events b p hexCmd listened)
  <-> listened = false /\ q = Some p.
Proof.
  unfold dispatch_events. destruct listened; simpl.
  - split; [|intros [? _]; discriminate].
    intros [H|H]; [discriminate|]. exfalso. eapply write_events_no_start, H.
  - split.
    + intros [H|[H|[H|H]]]; try discriminate.
      * injection H as ->. auto.
      * exfalso. destruct (b (StartListening (Some p))) as [[]|e].
        -- eapply write_events_no_start, H.
        -- destruct H as [H|[]]. discriminate.
    + intros [_ ->]. auto.
Qed.

Lemma dispatch_listeners_has (b : Backend) p hexCmd X :
  Some p ∈ dispatch_listeners b p hexCmd X
  <-> dispatch_ok b p hexCmd (bool_decide (Some p ∈ X)) = true.
Proof.
  unfold dispatch_listeners. destruct (dispatch_ok _ _ _ _).
  - split; [reflexivity|]. intros _. apply elem_of_union_l, elem_of_singleton.
    reflexivity.
  - split; [|discriminate]. intros [_ H]%elem_of_difference.
    exfalso. apply H, elem_of_singleton. reflexivity.
Qed.

Lemma new_events_two evs1 evs2 X1 X2 st :
  new_events st
    (set_activeListeners X2
       (extend evs2 (set_activeListeners X1 (extend evs1 st))))
  = evs1 ++ evs2.
Proof.
  unfold new_events. simpl. rewrite <- app_assoc. apply drop_app_length.
Qed.

(** The registry decides whether the listener is requested. *)
Lemma has_listener_decide p st :
  hasListener p st <-> bool_decide (Some p ∈ activeListeners st) = true.
Proof. unfold hasListener. symmetry. apply bool_decide_eq_true. Qed.

Lemma not_listener_decide p st :
  ~ hasListener p st <-> bool_decide (Some p ∈ activeListeners st) = false.
Proof. unfold hasListener. symmetry. apply bool_decide_eq_false. Qed.

(** With [p] not in the registry the handler suspends on
    [start_listening]; resumed with success it registers [p] and suspends
    on the write. *)
Lemma send_awaits_listener text p st :
  selectedDevicePath st = Some p -> p <> [] -> trim text <> [] ->
  ~ hasListener p st ->
  exists st0 k,
    sendBtn_onclick text st = Await (StartListening (Some p)) st0 k
    /\ exists st0' k',
         k (Resolved tt) st0
         = Await (SendHidCommand (Some p) (cmdArray (trim text))) st0' k'
         /\ hasListener p st0'.
Proof.
  intros Hsel Hp Hne Hnot. unfold sendBtn_onclick.
  destruct st as [ds sel ul X hh items tag log hist].
  cbn [selectedDevicePath] in Hsel. subst sel.
  cbn [selectedDevicePath]. rewrite (no_selection_some p Hp).
  destruct (trim text) as [|h hs] eqn:Eh; [congruence|]. cbv zeta.
  destruct (decide _) as [Hin|_]; [exfalso; apply Hnot, Hin|].
  unfold invoke. eexists _, _. split; [reflexivity|]. cbv beta iota.
  unfold send_command, invoke.
  eexists _, _. split; [reflexivity|].
  unfold hasListener.
  cbn [activeListeners record set_activeListeners addLog set_logDiv
       selectedDevicePath].
  apply elem_of_union_l, elem_of_singleton. reflexivity.
Qed.

(** A dispatch that nothing interrupts keeps the registry the way claim
    C1 has it. In a dispatch to the selected path [p], [start_listening] is
    invoked exactly when [p] is not in the registry as the dispatch begins,
    for [p] only and at most once. When the listener start resolves, the
    handler resumes by putting [p] in the registry and then issues the
    write. After a dispatch in which no call was rejected [p] is in the
    registry, the next dispatch does not invoke [start_listening], and the
    two together invoke it at most once. After a dispatch whose write was
    rejected [p] is not in the registry and the next dispatch invokes
    [start_listening] again. *)
Theorem send_listener_lifecycle (b b' : Backend) text text' p st :
  selectedDevicePath st = Some p -> p <> [] ->
  trim text <> [] -> trim text' <> [] ->
  let st1 := run b (sendBtn_onclick text st) in
  let st2 := run b' (sendBtn_onclick text' st1) in
  (In (EvInvoke (StartListening (Some p))) (new_events st st1)
   <-> ~ hasListener p st)
  /\ (forall q, In (EvInvoke (StartListening q)) (new_events st st1) -> q = Some p)
  /\ (starts (new_events st st1) <= 1)%nat
  /\ (~ hasListener p st ->
      exists st0 k,
        sendBtn_onclick text st = Await (StartListening (Some p)) st0 k
        /\ exists st0' k',
             k (Resolved tt) st0
             = Await (SendHidCommand (Some p) (cmdArray (trim text))) st0' k'
             /\ hasListener p st0')
  /\ (hasListener p st \/ b (StartListening (Some p)) = Resolved tt ->
      forall resp,
        b (SendHidCommand (Some p) (cmdArray (trim text))) = Resolved resp ->
        hasListener p st1
        /\ starts (new_events st1 st2) = 0%nat
        /\ (starts (new_events st st2) <= 1)%nat)
  /\ (forall e,
        b (SendHidCommand (Some p) (cmdArray (trim text))) = Rejected e ->
        ~ hasListener p st1
        /\ In (EvInvoke (StartListening (Some p))) (new_events st1 st2)).
Proof.
  intros Hsel Hp Hne Hne'. cbv zeta.
  assert (selectedDevicePath (run b (sendBtn_onclick text st)) = Some p) as Hsel1.
  { destruct (send_frame b text st) as (_ & -> & _). exact Hsel. }
  rewrite (send_run b' text' p (run b (sendBtn_onclick text st))) by assumption.
  rewrite (send_run b text p st) by assumption.
  rewrite new_events_two, !new_events_listeners.
  cbn [activeListeners set_activeListeners extend].
  set (X := activeListeners st).
  set (l := bool_decide (Some p ∈ X)).
  set (X1 := dispatch_listeners b p (trim text) X).
  assert (Hl : bool_decide (Some p ∈ X1) = dispatch_ok b p (trim text) l).
  { destruct (dispatch_ok b p (trim text) l) eqn:E.
    - apply bool_decide_eq_true, dispatch_listeners_has, E.
    - apply bool_decide_eq_false. unfold X1.
      rewrite dispatch_listeners_has. fold l. congruence. }
  split; [|split; [|split; [|split; [|split]]]].
  - rewrite dispatch_events_start, not_listener_decide. fold X l. tauto.
  - intros q Hq. apply dispatch_events_start in Hq. tauto.
  - rewrite dispatch_events_starts. destruct l; auto.
  - intros Hnot. apply send_awaits_listener; assumption.
  - intros Hstart resp Hresp.
    assert (dispatch_ok b p (trim text) l = true) as Hok.
    { unfold dispatch_ok. rewrite Hresp. cbn [is_resolved].
      rewrite andb_true_r. destruct Hstart as [H| ->]; [|apply orb_true_r].
      apply has_listener_decide in H. fold X l in H. rewrite H. reflexivity. }
    unfold hasListener. cbn [activeListeners set_activeListeners extend].
    fold X1. split; [apply dispatch_listeners_has, Hok|].
    rewrite starts_app, !dispatch_events_starts, Hl, Hok.
    split; [reflexivity|]. destruct l; auto.
  - intros e He.
    assert (dispatch_ok b p (trim text) l = false) as Hok.
    { unfold dispatch_ok. rewrite He. apply andb_false_r. }
    unfold hasListener. cbn [activeListeners set_activeListeners extend].
    split.
    + apply (proj1 (bool_decide_eq_false (Some p ∈ X1))). congruence.
    + apply dispatch_events_start. rewrite Hl, Hok. auto.
Qed.

Lemma send_listener_lifecycle_witness :
  let b := backend_write_fails (js "write timed out") in
  let b' := backend_ok [dev1] [170] in
  let st1 := run b (sendBtn_onclick (js "00 C0") st_selected) in
  let st2 := run b' (sendBtn_onclick (js "0A") st1) in
  selectedDevicePath st_selected = Some (js "dev-1")
  /\ js "dev-1" <> []
  /\ trim (js "00 C0") <> []
  /\ trim (js "0A") <> []
  /\ ~ hasListener (js "dev-1") st1
  /\ In (EvInvoke (StartListening (Some (js "dev-1")))) (new_events st1 st2).
Proof.
  cbv zeta.
  split; [reflexivity|]. split; [discriminate|].
  split; [discriminate|]. split; [discriminate|].
  pose proof (send_listener_lifecycle
                (backend_write_fails (js "write timed out"))
                (backend_ok [dev1] [170]) (js "00 C0") (js "0A") (js "dev-1")
                st_selected eq_refl) as H.
  cbv zeta in H.
  destruct H as (_ & _ & _ & _ & _ & H); try discriminate.
  apply (H (js "write timed out")). reflexivity.
Defined.

Lemma dispatch_events_start_rejected (b : Backend) p hexCmd e :
  b (StartListening (Some p)) = Rejected e ->
  dispatch_events b p hexCmd false =
  [EvLog (out_entry hexCmd); EvLog sys_entry;
   EvInvoke (StartListening (Some p)); EvLog (failure_entry e)].
Proof. intros H. unfold dispatch_events. rewrite H. reflexivity. Qed.

(** C8. When the listener start of a dispatch is rejected, the dispatch
    ends there: its events are the outgoing entry, the notice that a
    listener is being started, the [start_listening] call and one [error]
    entry carrying the reason; no [send_hid_command] is invoked; the path is
    not in the registry afterwards, and the next dispatch requests the
    listener again. *)
Theorem listener_start_failure_aborts (b b' : Backend) text text' p e st :
  selectedDevicePath st = Some p -> p <> [] ->
  trim text <> [] -> trim text' <> [] ->
  ~ hasListener p st ->
  b (StartListening (Some p)) = Rejected e ->
  let st1 := run b (sendBtn_onclick text st) in
  new_events st st1 =
    [EvLog (out_entry (trim text)); EvLog sys_entry;
     EvInvoke (StartListening (Some p)); EvLog (failure_entry e)]
  /\ (forall q data, ~ In (EvInvoke (SendHidCommand q data)) (new_events st st1))
  /\ logDiv st1 = logDiv st ++ [out_entry (trim text); sys_entry; failure_entry e]
  /\ entry_type (failure_entry e) = error
  /\ ~ hasListener p st1
  /\ selectedDevicePath st1 = Some p
  /\ In (EvInvoke (StartListening (Some p)))
        (new_events st1 (run b' (sendBtn_onclick text' st1))).
Proof.
  intros Hsel Hp Hne Hne' Hnot Hrej. cbv zeta.
  assert (selectedDevicePath (run b (sendBtn_onclick text st)) = Some p) as Hsel1.
  { destruct (send_frame b text st) as (_ & -> & _). exact Hsel. }
  rewrite (send_run b' text' p (run b (sendBtn_onclick text st))) by assumption.
  rewrite (send_run b text p st) in * by assumption.
  rewrite !new_events_listeners.
  apply not_listener_decide in Hnot. rewrite Hnot.
  rewrite (dispatch_events_start_rejected b p (trim text) e Hrej).
  assert (dispatch_ok b p (trim text) false = false) as Hok
    by (unfold dispatch_ok; rewrite Hrej; reflexivity).
  assert (Some p ∉ dispatch_listeners b p (trim text) (activeListeners st)) as Hout.
  { rewrite dispatch_listeners_has, Hnot, Hok. discriminate. }
  split; [reflexivity|].
  split; [simpl; intuition discriminate|].
  split; [reflexivity|]. split; [reflexivity|].
  split; [exact Hout|]. split; [exact Hsel1|].
  apply dispatch_events_start. split; [|reflexivity].
  apply bool_decide_eq_false. exact Hout.
Qed.

Lemma listener_start_failure_aborts_witness :
  let b := backend_down (js "access denied") in
  let st1 := run b (sendBtn_onclick (js "00 C0") st_selected) in
  selectedDevicePath st_selected = Some (js "dev-1")
  /\ js "dev-1" <> []
  /\ trim (js "00 C0") <> []
  /\ ~ hasListener (js "dev-1") st_selected
  /\ b (StartListening (Some (js "dev-1"))) = Rejected (js "access denied")
  /\ new_events st_selected st1 =
       [EvLog (out_entry (js "00 C0")); EvLog sys_entry;
        EvInvoke (StartListening (Some (js "dev-1")));
        EvLog (failure_entry (js "access denied"))].
Proof.
  cbv zeta.
  assert (~ hasListener (js "dev-1") st_selected) as Hnot
    by (unfold hasListener; apply (not_elem_of_empty (C:=gset (option (list N))))).
  split; [reflexivity|]. split; [discriminate|]. split; [discriminate|].
  split; [exact Hnot|]. split; [reflexivity|].
  assert (js "dev-1" <> []) as Hp by discriminate.
  assert (trim (js "00 C0") <> []) as Hne by discriminate.
  assert (trim (js "0A") <> []) as Hne' by discriminate.
  exact (proj1 (listener_start_failure_aborts
                  (backend_down (js "access denied")) (backend_ok [dev1] [])
                  (js "00 C0") (js "0A") (js "dev-1") (js "access denied")
                  st_selected eq_refl Hp Hne Hne' Hnot eq_refl)).
Defined.

(** C10. In a dispatch (a device is selected and the command text is not
    blank) the first thing that happens is the [outgoing] entry with the
    trimmed command text: every backend call of the dispatch comes after
    it. Whatever the backend answers, the entry stays in the log, followed
    by the later entries of the dispatch. *)
Theorem outgoing_entry_first_and_kept (b : Backend) text p st :
  selectedDevicePath st = Some p -> p <> [] -> trim text <> [] ->
  let st1 := run b (sendBtn_onclick text st) in
  exists rest,
    new_events st st1 =
      EvLog {| entry_type := outgoing; entry_message := js "[OUT] " ++ trim text |}
      :: rest
    /\ logDiv st1 =
       logDiv st
       ++ {| entry_type := outgoing; entry_message := js "[OUT] " ++ trim text |}
       :: log_entries rest
    /\ existsb is_invoke rest = true.
Proof.
  intros Hsel Hp Hne. cbv zeta. rewrite (send_run b text p st) by assumption.
  rewrite new_events_listeners. unfold dispatch_events.
  eexists. split; [reflexivity|]. split; [reflexivity|].
  destruct (bool_decide _); [|reflexivity]. reflexivity.
Qed.

Lemma outgoing_entry_first_and_kept_witness :
  let st1 := run (backend_down (js "gone")) (sendBtn_onclick (js " 01 02 ") st_selected) in
  selectedDevicePath st_selected = Some (js "dev-1")
  /\ js "dev-1" <> []
  /\ trim (js " 01 02 ") <> []
  /\ exists rest,
       new_events st_selected st1 =
         EvLog {| entry_type := outgoing; entry_message := js "[OUT] 01 02" |} :: rest
       /\ logDiv st1 =
          logDiv st_selected
          ++ {| entry_type := outgoing; entry_message := js "[OUT] 01 02" |}
          :: log_entries rest
       /\ existsb is_invoke rest = true.
Proof.
  cbv zeta. split; [reflexivity|]. split; [discriminate|]. split; [discriminate|].
  assert (js "dev-1" <> []) as Hp by discriminate.
  assert (trim (js " 01 02 ") <> []) as Hne by discriminate.
  exact (outgoing_entry_first_and_kept (backend_down (js "gone")) (js " 01 02 ")
           (js "dev-1") st_selected eq_refl Hp Hne).
Defined.

Lemma drop_ws_all s : forallb is_ws s = true -> drop_ws s = [].
Proof.
  induction s as [|c s IH]; simpl; [reflexivity|].
  intros [Hc Hs]%andb_prop. rewrite Hc. apply IH, Hs.
Qed.

(** A text trims to nothing exactly when it is empty or all white space. *)
Lemma trim_blank text : trim text = [] <-> forallb is_ws text = true.
Proof.
  split.
  - intros E. destruct (trim_split text) as (pre & post & Et & Hpre & Hpost).
    rewrite Et, E, !forallb_app, Hpre, Hpost. reflexivity.
  - intros H. unfold trim. rewrite (drop_ws_all text H). reflexivity.
Qed.

Lemma parseInt16_no_digit c r :
  is_hex c = false -> is_ws c = false -> c <> 45%N -> c <> 43%N ->
  parseInt16 (c :: r) = NaN.
Proof.
  intros Hhex Hws Hm Hp. unfold parseInt16. cbn [drop_ws]. rewrite Hws.
  apply N.eqb_neq in Hm, Hp. rewrite Hm, Hp. cbv beta iota zeta.
  assert (c <> 48%N) as H0 by (intros ->; discriminate Hhex).
  apply N.eqb_neq in H0.
  unfold is_hex in Hhex. destruct (hex_digit c) eqn:Ed; [discriminate|].
  destruct r as [|x r']; [|rewrite H0]; cbn [andb hex_prefix]; rewrite Ed;
    reflexivity.
Qed.

Lemma write_events_head (b : Backend) p data :
  In (EvInvoke (SendHidCommand (Some p) data)) (write_events b p data).
Proof. left. reflexivity. Qed.

(** C2, as the claim states it, fails. With [dev-1] selected, a blank
    command text adds no entry to the log, so there is no error entry; and
    the text [ZZ] is not rejected: it is encoded as NaN and handed to
    [send_hid_command]. *)
Lemma blank_or_malformed_counterexample :
  let b := backend_ok [dev1] [] in
  selectedDevicePath st_selected = Some (js "dev-1")
  /\ logDiv (run b (sendBtn_onclick (js "   ") st_selected)) = logDiv st_selected
  /\ cmdArray (trim (js "ZZ")) = [NaN]
  /\ new_events st_selected (run b (sendBtn_onclick (js "ZZ") st_selected)) =
       [EvLog (out_entry (js "ZZ")); EvLog sys_entry;
        EvInvoke (StartListening (Some (js "dev-1")));
        EvInvoke (SendHidCommand (Some (js "dev-1")) [NaN])].
Proof.
  cbv zeta. split; [reflexivity|]. split; [reflexivity|]. split; [reflexivity|].
  rewrite (send_run _ _ (js "dev-1")) by (reflexivity || discriminate).
  rewrite new_events_listeners. reflexivity.
Qed.

(** C2, amended. With a device selected, a command text that is empty or
    all white space ends the handler at once: no backend call is made and
    nothing is logged, the state is left as it was. Tokens are not
    validated: a text with a token is dispatched with every token given to
    [parseInt(.., 16)], a token that begins with neither a hexadecimal
    digit nor a sign (such as [ZZ]) becomes NaN, and once the listener is
    in place the array is handed to [send_hid_command] as it is. *)
Theorem blank_command_dropped_silently (b : Backend) text p st :
  selectedDevicePath st = Some p -> p <> [] ->
  (forallb is_ws text = true -> run b (sendBtn_onclick text st) = st)
  /\ (forallb is_ws text = false ->
      hasListener p st \/ b (StartListening (Some p)) = Resolved tt ->
      In (EvInvoke (SendHidCommand (Some p) (List.map parseInt16 (tokens text))))
         (new_events st (run b (sendBtn_onclick text st))))
  /\ (forall c r, is_hex c = false -> is_ws c = false ->
        c <> 45%N -> c <> 43%N -> parseInt16 (c :: r) = NaN)
  /\ parseInt16 (js "ZZ") = NaN.
Proof.
  intros Hsel Hp. split; [|split; [|split; [|reflexivity]]].
  - intros Hblank. apply send_blank.
    + rewrite Hsel. apply no_selection_some, Hp.
    + apply trim_blank, Hblank.
  - intros Hblank Hstart.
    assert (trim text <> []) as Hne.
    { intros E. apply trim_blank in E. congruence. }
    rewrite (send_run b text p st Hsel Hp Hne), new_events_listeners.
    rewrite <- (cmdArray_tokens text Hne).
    unfold dispatch_events. right.
    destruct (bool_decide (Some p ∈ activeListeners st)) eqn:El;
      [apply write_events_head|].
    right. right. destruct Hstart as [H| ->]; [|apply write_events_head].
    apply has_listener_decide in H. congruence.
  - apply parseInt16_no_digit.
Qed.

Lemma blank_command_dropped_silently_witness :
  selectedDevicePath st_selected = Some (js "dev-1")
  /\ js "dev-1" <> []
  /\ run (backend_ok [dev1] []) (sendBtn_onclick (js "   ") st_selected)
     = st_selected.
Proof.
  split; [reflexivity|].
  assert (js "dev-1" <> []) as Hp by discriminate.
  split; [exact Hp|].
  apply (proj1 (blank_command_dropped_silently (backend_ok [dev1] []) (js "   ")
                  (js "dev-1") st_selected eq_refl Hp)).
  reflexivity.
Defined.

(* ===================================================================== *)
(** ** Frames pushed by the backend *)
(* ===================================================================== *)

(** C9. In a session every frame pushed on the channel appends exactly
    one entry to the log, of category [incoming], and changes nothing else.
    Its message is the tag [[ASYNC IN]] followed by the payload printed
    byte by byte: each byte as two upper-case hexadecimal digits whose
    value is the byte, with single spaces between the pairs. The payload
    0, 192, 10 is printed as [00 C0 0A]. *)
Theorem pushed_frame_logged payload st :
  reachable st ->
  let st' := hid_data_event payload st in
  logDiv st' =
    logDiv st
    ++ [{| entry_type := incoming;
           entry_message := js "[ASYNC IN] " ++ hex_line payload |}]
  /\ new_events st st' = [EvLog (incoming_entry payload)]
  /\ st' = extend [EvLog (incoming_entry payload)] st
  /\ (forallb is_byte payload = true ->
      hex_line payload = join_sp (List.map hex_pair payload)
      /\ Forall (fun b => forallb is_upper_hex (hex_pair b) = true
                          /\ hex_value (hex_pair b) = b) payload)
  /\ hex_line [0; 192; 10] = js "00 C0 0A".
Proof.
  intros Hr. cbv zeta. destruct (reachable_inv st Hr) as (Hh & _).
  rewrite (hid_data_event_one payload st Hh), new_events_extend.
  split; [reflexivity|]. split; [reflexivity|]. split; [reflexivity|].
  split; [|reflexivity].
  intros Hbytes. split; [apply hex_line_bytes, Hbytes|].
  apply List.Forall_forall. intros x Hx.
  rewrite forallb_forall in Hbytes. specialize (Hbytes x Hx).
  split; [apply byte_hex_pair, Hbytes|apply byte_hex_value, Hbytes].
Qed.

Lemma pushed_frame_logged_witness :
  reachable st_selected
  /\ logDiv (hid_data_event [0; 192; 10] st_selected) =
       logDiv st_selected
       ++ [{| entry_type := incoming; entry_message := js "[ASYNC IN] 00 C0 0A" |}].
Proof.
  split; [apply st_selected_reachable|].
  exact (proj1 (pushed_frame_logged [0; 192; 10] st_selected
                  st_selected_reachable)).
Defined.

(* ===================================================================== *)
(** ** More on parsing and printing *)
(* ===================================================================== *)

Lemma pieces_cons s : exists t ts, pieces s = t :: ts.
Proof.
  destruct s as [|c s]; simpl; [eauto|].
  destruct (is_ws c); [eauto|]. destruct (pieces s); eauto.
Qed.

Lemma pieces_app_ws a w b :
  is_ws w = true -> pieces (a ++ w :: b) = pieces a ++ pieces b.
Proof.
  intros Hw. induction a as [|c a IH]; simpl.
  - rewrite Hw. reflexivity.
  - rewrite IH. destruct (is_ws c); [reflexivity|].
    destruct (pieces_cons a) as (t & ts & ->). reflexivity.
Qed.

Lemma tokens_app_ws a w b :
  is_ws w = true -> tokens (a ++ w :: b) = tokens a ++ tokens b.
Proof.
  intros Hw. unfold tokens. rewrite pieces_app_ws by exact Hw.
  apply List.filter_app.
Qed.

Lemma pieces_no_ws_single t : existsb is_ws t = false -> pieces t = [t].
Proof.
  induction t as [|c t IH]; simpl; [reflexivity|].
  intros [Hc Ht]%orb_false_elim. rewrite Hc, IH by exact Ht. reflexivity.
Qed.

Lemma tokens_single t :
  t <> [] -> existsb is_ws t = false -> tokens t = [t].
Proof.
  intros Hne Hws. unfold tokens. rewrite pieces_no_ws_single by exact Hws.
  destruct t; [congruence|reflexivity].
Qed.

(** Joining white-space-free words with single spaces and cutting the
    result into tokens gives the words back. *)
Lemma tokens_join_sp l :
  Forall (fun t => t <> [] /\ existsb is_ws t = false) l ->
  tokens (join_sp l) = l.
Proof.
  induction 1 as [|t l [Hne Hws] Hl IH]; [reflexivity|].
  destruct l as [|t' l'].
  - simpl. apply tokens_single; assumption.
  - change (join_sp (t :: t' :: l')) with (t ++ 32%N :: join_sp (t' :: l')).
    rewrite tokens_app_ws by reflexivity.
    rewrite IH, tokens_single by assumption. reflexivity.
Qed.

Lemma upper_hex_units c :
  is_upper_hex c = true -> is_hex c = true /\ is_ws c = false.
Proof.
  unfold is_upper_hex, is_hex, hex_digit, is_ws.
  destruct ((48 <=? c) && (c <=? 57))%N eqn:E1.
  - intros _. split; [reflexivity|]. bool_to_prop; lia.
  - destruct ((65 <=? c) && (c <=? 70))%N eqn:E2; [|discriminate].
    intros _. split; [reflexivity|]. bool_to_prop; lia.
Qed.

Lemma hex_pair_word b :
  is_byte b = true ->
  hex_pair b <> [] /\ existsb is_ws (hex_pair b) = false
  /\ parseInt16 (hex_pair b) = Int b.
Proof.
  intros Hb. destruct (byte_hex_pair b Hb) as [_ Hup].
  split; [discriminate|].
  unfold hex_pair in *. cbn [forallb existsb] in *.
  apply andb_prop in Hup as [H1 [H2 _]%andb_prop].
  destruct (upper_hex_units _ H1) as [Hh1 Hw1].
  destruct (upper_hex_units _ H2) as [Hh2 Hw2].
  split; [rewrite Hw1, Hw2; reflexivity|].
  rewrite parseInt16_hex.
  - f_equal. apply (byte_hex_value b Hb).
  - discriminate.
  - cbn [forallb]. rewrite Hh1, Hh2. reflexivity.
  - simpl. lia.
Qed.

Lemma tokens_hex_line bytes :
  forallb is_byte bytes = true ->
  tokens (hex_line bytes) = List.map hex_pair bytes
  /\ List.map parseInt16 (List.map hex_pair bytes) = List.map Int bytes.
Proof.
  intros Hb. rewrite hex_line_bytes by exact Hb. split.
  - apply tokens_join_sp. apply List.Forall_forall. intros t Ht.
    apply in_map_iff in Ht as (b & <- & Hin).
    rewrite forallb_forall in Hb.
    destruct (hex_pair_word b (Hb b Hin)) as (? & ? & _). auto.
  - rewrite List.map_map. apply map_ext_in. intros b Hin.
    rewrite forallb_forall in Hb. apply hex_pair_word, Hb, Hin.
Qed.

Lemma tokens_trim_nonempty text : tokens text <> [] -> trim text <> [].
Proof.
  intros H E. apply H. rewrite <- tokens_trim, E. reflexivity.
Qed.

(** X1. Printing and encoding are inverse on bytes: the text that the
    log shows for a non-empty sequence of bytes, entered as a command,
    encodes to those bytes. *)
Theorem hex_line_then_cmdArray bytes :
  bytes <> [] -> forallb is_byte bytes = true ->
  trim (hex_line bytes) <> []
  /\ cmdArray (trim (hex_line bytes)) = List.map Int bytes.
Proof.
  intros Hne Hb. destruct (tokens_hex_line bytes Hb) as [Ht Hp].
  assert (trim (hex_line bytes) <> []) as Htrim.
  { apply tokens_trim_nonempty. rewrite Ht. destruct bytes; [congruence|].
    discriminate. }
  split; [exact Htrim|].
  rewrite cmdArray_tokens by exact Htrim. rewrite Ht. exact Hp.
Qed.

Lemma hex_line_then_cmdArray_witness :
  [0; 192; 10; 255] <> []
  /\ forallb is_byte [0; 192; 10; 255] = true
  /\ cmdArray (trim (hex_line [0; 192; 10; 255]))
     = [Int 0; Int 192; Int 10; Int 255].
Proof.
  assert ([0; 192; 10; 255] <> []) as Hne by discriminate.
  split; [exact Hne|]. split; [reflexivity|].
  exact (proj2 (hex_line_then_cmdArray [0; 192; 10; 255] Hne eq_refl)).
Defined.

(** Evaluate the tests on literal code units. *)
Ltac eval_units :=
  repeat (progress
    (try match goal with
       | |- context [is_ws (Npos ?p)] =>
           let v := eval vm_compute in (is_ws (Npos p)) in
           change (is_ws (Npos p)) with v
       | |- context [N.eqb (Npos ?p) (Npos ?q)] =>
           let v := eval vm_compute in (N.eqb (Npos p) (Npos q)) in
           change (N.eqb (Npos p) (Npos q)) with v
       end;
     cbv beta iota zeta; cbn [andb orb])).

(** What is left of [parseInt(.., 16)] once sign and prefix are gone. *)
Lemma parse_digits (neg : bool) h :
  h <> [] -> forallb is_hex h = true -> (length h <= 13)%nat ->
  match hex_prefix 0 false h with
  | Some m =>
      if m =? 0 then (if neg then NegZero else Int 0)
      else
        match round_double m with
        | Some v => Int (if neg then - v else v)
        | None => if neg then NegInf else PosInf
        end
  | None => NaN
  end
  = if neg then (if hex_value h =? 0 then NegZero else Int (- hex_value h))
    else Int (hex_value h).
Proof.
  intros Hne Hall Hlen.
  pose proof (hex_value_bound h Hall) as Hb.
  assert (16 ^ Z.of_nat (length h) <= 16 ^ 13) as Hp
    by (apply Z.pow_le_mono_r; lia).
  rewrite hex_prefix_all by auto. rewrite Z.mul_0_l, Z.add_0_l.
  destruct (hex_value h =? 0) eqn:E0.
  - apply Z.eqb_eq in E0. rewrite E0. destruct neg; reflexivity.
  - apply Z.eqb_neq in E0. rewrite round_double_exact; [destruct neg; reflexivity|].
    change (2 ^ 53) with (2 * 16 ^ 13). lia.
Qed.

Lemma no_prefix_in_digits h :
  forallb is_hex h = true ->
  match h with
  | c :: x :: r => if (c =? 48)%N && ((x =? 120)%N || (x =? 88)%N) then r else h
  | _ => h
  end = h.
Proof.
  intros Hall. destruct h as [|c [|x r]]; try reflexivity.
  simpl in Hall. apply andb_prop in Hall as [_ [Hx _]%andb_prop].
  destruct (is_hex_units x Hx) as (_ & _ & _ & H1 & H2).
  apply N.eqb_neq in H1, H2. rewrite H1, H2, andb_false_r. reflexivity.
Qed.

(** X2. Besides bare digits the encoder accepts a [0x] or [0X] prefix and
    a sign: for one to thirteen hexadecimal digits [h], [0xh], [0Xh] and
    [+h] encode to the value of [h], and [-h] encodes to its negative
    (negative zero when the value is zero). *)
Theorem parseInt16_prefix_and_sign h :
  h <> [] -> forallb is_hex h = true -> (length h <= 13)%nat ->
  parseInt16 (js "0x" ++ h) = Int (hex_value h)
  /\ parseInt16 (js "0X" ++ h) = Int (hex_value h)
  /\ parseInt16 (js "+" ++ h) = Int (hex_value h)
  /\ parseInt16 (js "-" ++ h)
     = (if hex_value h =? 0 then NegZero else Int (- hex_value h))
  /\ parseInt16 (js "-0x" ++ h)
     = (if hex_value h =? 0 then NegZero else Int (- hex_value h)).
Proof.
  intros Hne Hall Hlen.
  pose proof (parse_digits false h Hne Hall Hlen) as Hpos.
  pose proof (parse_digits true h Hne Hall Hlen) as Hneg.
  pose proof (no_prefix_in_digits h Hall) as Hnp.
  change (js "0x" ++ h) with (48%N :: 120%N :: h).
  change (js "0X" ++ h) with (48%N :: 88%N :: h).
  change (js "+" ++ h) with (43%N :: h).
  change (js "-" ++ h) with (45%N :: h).
  change (js "-0x" ++ h) with (45%N :: 48%N :: 120%N :: h).
  unfold parseInt16. cbn [drop_ws]. eval_units.
  rewrite Hnp. repeat split; assumption.
Qed.

Lemma parseInt16_prefix_and_sign_witness :
  js "1f" <> [] /\ forallb is_hex (js "1f") = true
  /\ (length (js "1f") <= 13)%nat
  /\ parseInt16 (js "0x1f") = Int 31
  /\ parseInt16 (js "-1f") = Int (-31).
Proof.
  assert (js "1f" <> []) as Hne by discriminate.
  assert (length (js "1f") <= 13)%nat as Hlen by (simpl; lia).
  split; [exact Hne|]. split; [reflexivity|]. split; [exact Hlen|].
  destruct (parseInt16_prefix_and_sign (js "1f") Hne eq_refl Hlen)
    as (H1 & _ & _ & H4 & _).
  split; [exact H1|exact H4].
Defined.

Lemma hex_prefix_stop acc seen h c r :
  forallb is_hex h = true -> is_hex c = false -> (seen = true \/ h <> []) ->
  hex_prefix acc seen (h ++ c :: r)
  = Some (acc * 16 ^ Z.of_nat (length h) + hex_value h).
Proof.
  intros Hall Hc. unfold is_hex in Hc.
  destruct (hex_digit c) eqn:Ec; [discriminate|]. clear Hc.
  revert acc seen. induction h as [|d h IH]; intros acc seen Hne.
  - destruct Hne as [-> | ?]; [|congruence]. simpl. rewrite Ec. f_equal. lia.
  - simpl in Hall. apply andb_prop in Hall as [Hd Hall].
    unfold is_hex in Hd. cbn [app hex_prefix hex_value].
    destruct (hex_digit d) as [v|] eqn:Ed; [|discriminate].
    rewrite IH by auto. simpl default. f_equal.
    cbn [length]. rewrite Nat2Z.inj_succ, Z.pow_succ_r by lia. ring.
Qed.

(** X3. What follows the leading digits of a token is dropped without
    notice: one to thirteen hexadecimal digits [h] followed by a unit that
    is not a hexadecimal digit, and by anything after it, encode to the
    value of [h] alone. The one exception is the digit [0] followed by [x]
    or [X], which is read as a prefix. *)
Theorem parseInt16_ignores_rest h c r :
  h <> [] -> forallb is_hex h = true -> (length h <= 13)%nat ->
  is_hex c = false ->
  ~ (h = [48%N] /\ (c = 120%N \/ c = 88%N)) ->
  parseInt16 (h ++ c :: r) = Int (hex_value h).
Proof.
  intros Hne Hall Hlen Hc Hx.
  pose proof (parse_digits false h Hne Hall Hlen) as Hpos.
  rewrite hex_prefix_all in Hpos by auto.
  destruct h as [|d h']; [congruence|].
  pose proof Hall as Hall'. simpl in Hall'. apply andb_prop in Hall' as [Hd Hh'].
  destruct (is_hex_units d Hd) as (Hws & Hm & Hp & _).
  apply N.eqb_neq in Hm, Hp.
  unfold parseInt16. cbn [app drop_ws]. rewrite Hws, Hm, Hp. cbv beta iota zeta.
  assert (match h' ++ c :: r with
          | [] => d :: h' ++ c :: r
          | x :: r0 =>
              if (d =? 48)%N && ((x =? 120)%N || (x =? 88)%N) then r0
              else d :: h' ++ c :: r
          end = (d :: h') ++ c :: r) as ->.
  { destruct h' as [|x h'']; cbn [app].
    - destruct ((d =? 48)%N && ((c =? 120)%N || (c =? 88)%N)) eqn:E;
        [|reflexivity].
      exfalso. apply Hx. bool_to_prop. destruct E as [-> E]. auto.
    - simpl in Hh'. apply andb_prop in Hh' as [Hx' _].
      destruct (is_hex_units x Hx') as (_ & _ & _ & H1 & H2).
      apply N.eqb_neq in H1, H2. rewrite H1, H2, andb_false_r. reflexivity. }
  rewrite hex_prefix_stop by (auto; right; discriminate). exact Hpos.
Qed.

Lemma parseInt16_ignores_rest_witness :
  js "1" <> [] /\ forallb is_hex (js "1") = true /\ (length (js "1") <= 13)%nat
  /\ is_hex 71%N = false
  /\ ~ (js "1" = [48%N] /\ (71%N = 120%N \/ 71%N = 88%N))
  /\ parseInt16 (js "1G7") = Int 1.
Proof.
  assert (js "1" <> []) as Hne by discriminate.
  assert (length (js "1") <= 13)%nat as Hlen by (simpl; lia).
  assert (~ (js "1" = [48%N] /\ (71%N = 120%N \/ 71%N = 88%N))) as Hx
    by (intros [H _]; discriminate H).
  split; [exact Hne|]. split; [reflexivity|]. split; [exact Hlen|].
  split; [reflexivity|]. split; [exact Hx|].
  exact (parseInt16_ignores_rest (js "1") 71%N (js "7") Hne eq_refl Hlen
           eq_refl Hx).
Defined.

(* ===================================================================== *)
(** ** More on dispatching *)
(* ===================================================================== *)

Lemma extend_nil st : extend [] st = st.
Proof.
  destruct st. unfold extend. simpl. rewrite !app_nil_r. reflexivity.
Qed.

Lemma st_listening_reachable : reachable st_listening.
Proof. unfold st_listening. do 3 apply reachable_step. apply reachable_start. Qed.

Example st_listening_registry :
  bool_decide (Some (js "dev-1") ∈ activeListeners st_listening) = true
  /\ selectedDevicePath st_listening = Some (js "dev-1")
  /\ List.filter is_invoke (history st_listening) =
     [EvInvoke ScanHidDevices; EvInvoke (StartListening (Some (js "dev-1")));
      EvInvoke (SendHidCommand (Some (js "dev-1")) [Int 0; Int 192])].
Proof. repeat split; vm_compute; reflexivity. Qed.

Lemma split_ws_cons s : exists t ts, split_ws s = t :: ts.
Proof.
  induction s as [|c s (t & ts & IH)]; simpl; [eauto|].
  destruct (is_ws c).
  - destruct s as [|c' s']; [eauto|]. destruct (is_ws c'); eauto.
  - rewrite IH. eauto.
Qed.

Lemma cmdArray_nonempty hexCmd : cmdArray hexCmd <> [].
Proof.
  unfold cmdArray. destruct (split_ws_cons hexCmd) as (t & ts & ->).
  discriminate.
Qed.

Lemma write_events_entries (b : Backend) p data :
  log_entries (write_events b p data)
  = match b (SendHidCommand (Some p) data) with
    | Resolved [] => []
    | Resolved (x :: resp) => [result_entry (x :: resp)]
    | Rejected e => [failure_entry e]
    end.
Proof.
  unfold write_events.
  destruct (b (SendHidCommand (Some p) data)) as [[|x resp]|e]; reflexivity.
Qed.

(** X9. What a dispatch writes to the log. First the outgoing entry and,
    when the path was not in the registry, the notice that a listener is
    being started. Then, if a call was rejected, one [error] entry with the
    reason given by the call that failed, and nothing else; if no call was
    rejected, the response as a [[RESULT]] entry when it is not empty and
    nothing when it is empty. *)
Theorem dispatch_log_entries (b : Backend) text p st :
  selectedDevicePath st = Some p -> p <> [] -> trim text <> [] ->
  let st' := run b (sendBtn_onclick text st) in
  let first :=
    out_entry (trim text)
    :: (if bool_decide (Some p ∈ activeListeners st) then [] else [sys_entry]) in
  (forall e,
     ~ hasListener p st -> b (StartListening (Some p)) = Rejected e ->
     logDiv st' = logDiv st ++ first ++ [failure_entry e])
  /\ (forall e,
        hasListener p st \/ b (StartListening (Some p)) = Resolved tt ->
        b (SendHidCommand (Some p) (cmdArray (trim text))) = Rejected e ->
        logDiv st' = logDiv st ++ first ++ [failure_entry e])
  /\ (forall resp,
        hasListener p st \/ b (StartListening (Some p)) = Resolved tt ->
        b (SendHidCommand (Some p) (cmdArray (trim text))) = Resolved resp ->
        logDiv st' =
          logDiv st ++ first
          ++ (if bool_decide (resp = []) then [] else [result_entry resp])).
Proof.
  intros Hsel Hp Hne. cbv zeta. rewrite (send_run b text p st Hsel Hp Hne).
  cbn [logDiv set_activeListeners extend]. unfold hasListener, dispatch_events.
  split; [|split].
  - intros e Hnot Hrej. rewrite (bool_decide_eq_false_2 _ Hnot), Hrej.
    reflexivity.
  - intros e Hstart Hrej.
    destruct (bool_decide (Some p ∈ activeListeners st)) eqn:El.
    + change (log_entries (EvLog (out_entry (trim text))
                           :: write_events b p (cmdArray (trim text))))
        with (out_entry (trim text)
              :: log_entries (write_events b p (cmdArray (trim text)))).
      rewrite write_events_entries, Hrej. reflexivity.
    + destruct Hstart as [H | ->];
        [apply bool_decide_eq_false in El; exfalso; exact (El H)|].
      change (log_entries ?x) with
        (out_entry (trim text) :: sys_entry
         :: log_entries (write_events b p (cmdArray (trim text)))).
      rewrite write_events_entries, Hrej. reflexivity.
  - intros resp Hstart Hres.
    assert (log_entries (write_events b p (cmdArray (trim text)))
            = if bool_decide (resp = []) then [] else [result_entry resp]) as Hw.
    { rewrite write_events_entries, Hres. destruct resp; reflexivity. }
    destruct (bool_decide (Some p ∈ activeListeners st)) eqn:El.
    + change (log_entries (EvLog (out_entry (trim text))
                           :: write_events b p (cmdArray (trim text))))
        with (out_entry (trim text)
              :: log_entries (write_events b p (cmdArray (trim text)))).
      rewrite Hw. reflexivity.
    + destruct Hstart as [H | ->];
        [apply bool_decide_eq_false in El; exfalso; exact (El H)|].
      change (log_entries ?x) with
        (out_entry (trim text) :: sys_entry
         :: log_entries (write_events b p (cmdArray (trim text)))).
      rewrite Hw. reflexivity.
Qed.

Lemma dispatch_log_entries_witness :
  let b := backend_write_fails (js "pipe broken") in
  selectedDevicePath st_selected = Some (js "dev-1")
  /\ js "dev-1" <> []
  /\ trim (js "01") <> []
  /\ logDiv (run b (sendBtn_onclick (js "01") st_selected))
     = logDiv st_selected
       ++ [out_entry (js "01"); sys_entry; failure_entry (js "pipe broken")].
Proof.
  cbv zeta.
  assert (js "dev-1" <> []) as Hp by discriminate.
  assert (trim (js "01") <> []) as Hne by discriminate.
  split; [reflexivity|]. split; [exact Hp|]. split; [exact Hne|].
  destruct (dispatch_log_entries (backend_write_fails (js "pipe broken"))
              (js "01") (js "dev-1") st_selected eq_refl Hp Hne)
    as (_ & H & _).
  apply (H (js "pipe broken")); [right|]; reflexivity.
Defined.

(* ===================================================================== *)
(** ** The device list and the time stamp *)
(* ===================================================================== *)





Lemma pad2_checked :
  forallb (fun n => bool_decide (padStart0 2 (dec (Z.of_nat n))
                                 = digits 2 (Z.of_nat n)))
          (seq 0 100) = true.
Proof. vm_compute. reflexivity. Qed.

Lemma pad3_checked :
  forallb (fun n => bool_decide (padStart0 3 (dec (Z.of_nat n))
                                 = digits 3 (Z.of_nat n)))
          (seq 0 1000) = true.
Proof. vm_compute. reflexivity. Qed.

Lemma pad2_digits n : 0 <= n < 100 -> padStart0 2 (dec n) = digits 2 n.
Proof.
  intros Hn. pose proof pad2_checked as H. rewrite forallb_forall in H.
  specialize (H (Z.to_nat n)). rewrite Z2Nat.id in H by lia.
  apply (bool_decide_eq_true_1 _), H, in_seq. lia.
Qed.

Lemma pad3_digits n : 0 <= n < 1000 -> padStart0 3 (dec n) = digits 3 n.
Proof.
  intros Hn. pose proof pad3_checked as H. rewrite forallb_forall in H.
  specialize (H (Z.to_nat n)). rewrite Z2Nat.id in H by lia.
  apply (bool_decide_eq_true_1 _), H, in_seq. lia.
Qed.

Lemma digits_length w n : length (digits w n) = w.
Proof.
  revert n. induction w as [|w IH]; intros n; simpl; [reflexivity|].
  rewrite List.length_app, IH. simpl. lia.
Qed.

(** X11. The time stamp of a log line has a fixed shape: for the fields
    of a clock it is two digits of hours, a colon, two digits of minutes, a
    colon, two digits of seconds, a dot and three digits of milliseconds,
    twelve units in all, zero-padded on the left. *)
Theorem log_time_shape d :
  clock_ok d ->
  log_time d =
    digits 2 (getHours d) ++ js ":" ++ digits 2 (getMinutes d) ++ js ":"
    ++ digits 2 (getSeconds d) ++ js "." ++ digits 3 (getMilliseconds d)
  /\ length (log_time d) = 12%nat.
Proof.
  intros (Hh & Hm & Hs & Hms). unfold log_time. cbv zeta.
  rewrite !pad2_digits, pad3_digits by lia.
  split; [reflexivity|].
  rewrite !List.length_app. cbn [length].
  rewrite !List.length_app. cbn [length].
  rewrite !List.length_app. cbn [length].
  rewrite !digits_length. reflexivity.
Qed.

Lemma log_time_shape_witness :
  let d := {| getHours := 9; getMinutes := 5; getSeconds := 30;
              getMilliseconds := 7 |} in
  clock_ok d /\ log_time d = js "09:05:30.007".
Proof.
  cbv zeta.
  assert (clock_ok {| getHours := 9; getMinutes := 5; getSeconds := 30;
                      getMilliseconds := 7 |}) as Hok
    by (unfold clock_ok; simpl; lia).
  split; [exact Hok|].
  rewrite (proj1 (log_time_shape _ Hok)). reflexivity.
Defined.

(** X12. The handler reads the selection again after every [await]. If,
    while [start_listening] for the selected path [p] is pending, the
    operator clicks the item of another path [p'], then once the listener
    start resolves it is [p'] that is put in the registry and [p'] that the
    command is written to, although the listener was requested for [p]. *)
Theorem click_during_listener_start (b : Backend) text p p' st :
  selectedDevicePath st = Some p -> p <> [] -> trim text <> [] ->
  ~ hasListener p st ->
  b (StartListening (Some p)) = Resolved tt ->
  p' <> [] ->
  exists st1 k,
    resume b (device_item_click p') (sendBtn_onclick text st)
    = Await (SendHidCommand (Some p') (cmdArray (trim text))) st1 k
    /\ selectedDevicePath st1 = Some p'
    /\ activeListeners st1 = {[Some p']} ∪ activeListeners st
    /\ In (EvInvoke (StartListening (Some p))) (new_events st st1)
    /\ (p <> p' -> ~ In (EvInvoke (StartListening (Some p'))) (new_events st st1)).
Proof.
  intros Hsel Hp Hne Hnot Hstart Hp'.
  destruct st as [ds sel ul X hh items tag log hist].
  cbn [selectedDevicePath] in Hsel. subst sel.
  destruct p' as [|c' r']; [congruence|].
  unfold sendBtn_onclick. cbn [selectedDevicePath].
  rewrite (no_selection_some p Hp).
  destruct (trim text) as [|h hs] eqn:Eh; [congruence|]. cbv zeta.
  destruct (decide _) as [Hin|_]; [exfalso; apply Hnot, Hin|].
  unfold invoke, resume.
  cbn [selectedDevicePath addLog record set_logDiv]. rewrite Hstart.
  unfold device_item_click. cbv zeta.
  cbn [selectedDevicePath scannedDevices set_selectedDevicePath path_or_null
       addLog record set_logDiv].
  destruct (List.find _ ds) as [d|]; unfold send_command, invoke;
    (eexists _, _; split; [reflexivity|]);
    (split; [reflexivity|]); (split; [reflexivity|]);
    unfold new_events;
    cbn [history record addLog set_logDiv set_activeListeners set_selectedTag
         set_selectedDevicePath renderDeviceList set_deviceItems length];
    rewrite <- !app_assoc, drop_app_length; cbn [app]; split.
  - right. right. left. reflexivity.
  - intros Hneq [H|[H|[H|[H|[H|[]]]]]]; try discriminate H.
    injection H as E. congruence.
  - right. right. left. reflexivity.
  - intros Hneq [H|[H|[H|[H|[]]]]]; try discriminate H.
    injection H as E. congruence.
Qed.

Lemma click_during_listener_start_witness :
  let b := backend_ok [dev1; dev2] [] in
  let st := step b (ClickItem 0) (step b ClickScan (startApp initial)) in
  selectedDevicePath st = Some (js "dev-1")
  /\ js "dev-1" <> [] /\ trim (js "01") <> []
  /\ ~ hasListener (js "dev-1") st
  /\ b (StartListening (Some (js "dev-1"))) = Resolved tt
  /\ js "dev-2" <> []
  /\ exists st1 k,
       resume b (device_item_click (js "dev-2")) (sendBtn_onclick (js "01") st)
       = Await (SendHidCommand (Some (js "dev-2")) (cmdArray (trim (js "01")))) st1 k
       /\ selectedDevicePath st1 = Some (js "dev-2").
Proof.
  cbv zeta.
  set (b := backend_ok [dev1; dev2] []).
  set (st := step b (ClickItem 0) (step b ClickScan (startApp initial))).
  assert (js "dev-1" <> []) as Hp by discriminate.
  assert (js "dev-2" <> []) as Hp' by discriminate.
  assert (trim (js "01") <> []) as Hne by discriminate.
  assert (~ hasListener (js "dev-1") st) as Hnot
    by (unfold hasListener; apply (not_elem_of_empty (C:=gset (option (list N))))).
  split; [reflexivity|]. split; [exact Hp|]. split; [exact Hne|].
  split; [exact Hnot|]. split; [reflexivity|]. split; [exact Hp'|].
  destruct (click_during_listener_start b (js "01") (js "dev-1") (js "dev-2") st
              eq_refl Hp Hne Hnot eq_refl Hp') as (st1 & k & H1 & H2 & _).
  exists st1, k. split; [exact H1|exact H2].
Defined.

(** X13. A frame pushed while the write of a dispatch is pending is
    logged on arrival and leaves the dispatch alone: compared with the same
    dispatch run undisturbed, the trace has the [incoming] entry right
    after the [send_hid_command] call and is otherwise the same, and the
    registry ends up the same. *)
Theorem frame_during_write (b : Backend) text p payload st :
  selectedDevicePath st = Some p -> p <> [] -> trim text <> [] ->
  hasListener p st -> hidHandlers st = 1%nat ->
  let alone := run b (sendBtn_onclick text st) in
  let write := EvInvoke (SendHidCommand (Some p) (cmdArray (trim text))) in
  exists st' rest,
    resume b (hid_data_event payload) (sendBtn_onclick text st) = Done st'
    /\ new_events st alone = EvLog (out_entry (trim text)) :: write :: rest
    /\ new_events st st' =
         EvLog (out_entry (trim text)) :: write
         :: EvLog (incoming_entry payload) :: rest
    /\ logDiv st' =
         logDiv st
         ++ out_entry (trim text) :: incoming_entry payload :: log_entries rest
    /\ activeListeners st' = activeListeners alone.
Proof.
  intros Hsel Hp Hne Hin Hh. cbv zeta.
  rewrite (send_run b text p st Hsel Hp Hne), new_events_listeners.
  unfold dispatch_listeners, dispatch_ok, dispatch_events, write_events.
  rewrite (bool_decide_eq_true_2 _ Hin). cbn [orb andb].
  destruct st as [ds sel ul X hh items tag log hist].
  cbn [selectedDevicePath hidHandlers] in Hsel, Hh. subst sel hh.
  unfold sendBtn_onclick. cbn [selectedDevicePath].
  rewrite (no_selection_some p Hp).
  destruct (trim text) as [|h hs] eqn:Eh; [congruence|]. cbv zeta.
  destruct (decide _) as [_|Hnot]; [|exfalso; apply Hnot, Hin].
  assert ({[Some p]} ∪ X = X) as HX
    by (apply subseteq_union_1_L, singleton_subseteq_l, Hin).
  unfold send_command, invoke, resume, hid_data_event, send_catch.
  cbn [selectedDevicePath hidHandlers addLog record set_logDiv].
  unfold Nat.iter. cbn [nat_rect]. unfold on_hid_data.
  destruct (b (SendHidCommand (Some p) (cmdArray (h :: hs)))) as [[|x resp]|e];
    cbn [is_resolved]; eexists _, _; (split; [reflexivity|]);
    (split; [reflexivity|]);
    unfold new_events;
    cbn [history logDiv activeListeners selectedDevicePath record addLog
         set_logDiv set_activeListeners extend length];
    rewrite <- ?app_assoc, ?drop_app_length; cbn [app];
    rewrite ?HX; repeat split; reflexivity.
Qed.

Lemma frame_during_write_witness :
  let b := backend_ok [dev1; dev2] [170] in
  selectedDevicePath st_listening = Some (js "dev-1")
  /\ js "dev-1" <> [] /\ trim (js "0A") <> []
  /\ hasListener (js "dev-1") st_listening
  /\ hidHandlers st_listening = 1%nat
  /\ exists st' rest,
       resume b (hid_data_event [1; 2]) (sendBtn_onclick (js "0A") st_listening)
       = Done st'
       /\ new_events st_listening st' =
            EvLog (out_entry (js "0A"))
            :: EvInvoke (SendHidCommand (Some (js "dev-1")) [Int 10])
            :: EvLog (incoming_entry [1; 2]) :: rest.
Proof.
  cbv zeta.
  assert (js "dev-1" <> []) as Hp by discriminate.
  assert (trim (js "0A") <> []) as Hne by discriminate.
  assert (hasListener (js "dev-1") st_listening) as Hin
    by (unfold hasListener;
        apply (bool_decide_unpack
                 (Some (js "dev-1") ∈ activeListeners st_listening));
        vm_compute; exact I).
  split; [reflexivity|]. split; [exact Hp|]. split; [exact Hne|].
  split; [exact Hin|]. split; [reflexivity|].
  destruct (frame_during_write (backend_ok [dev1; dev2] [170]) (js "0A")
              (js "dev-1") [1; 2] st_listening eq_refl Hp Hne Hin eq_refl)
    as (st' & rest & H1 & _ & H3 & _).
  exists st', rest. split; [exact H1|exact H3].
Defined.

(* ===================================================================== *)
(** ** Handlers interleaved *)
(* ===================================================================== *)

Lemma step_is_run (b : Backend) a st : step b a st = run b (handler a st).
Proof. destruct a; reflexivity. Qed.

Lemma appends_refl st : appends st st.
Proof.
  repeat split; auto. exists []. rewrite !app_nil_r. split; reflexivity.
Qed.

Lemma appends_trans st1 st2 st3 :
  appends st1 st2 -> appends st2 st3 -> appends st1 st3.
Proof.
  intros (A1 & A2 & A3 & A4 & A5 & evs & A6 & A7)
         (B1 & B2 & B3 & B4 & B5 & evs' & B6 & B7).
  repeat split; try congruence; auto.
  exists (evs ++ evs'). rewrite B6, B7, A6, A7, log_entries_app, !app_assoc.
  split; reflexivity.
Qed.

Lemma appends_extend evs st : appends st (extend evs st).
Proof. repeat split; auto. exists evs. split; reflexivity. Qed.

Lemma appends_listeners X st : appends st (set_activeListeners X st).
Proof. exact (appends_refl st). Qed.

Lemma follows_send_catch e st : follows appends st (send_catch e st).
Proof.
  unfold send_catch. cbv zeta. rewrite addLog_extend. apply follows_done.
  eapply appends_trans; [apply appends_extend|apply appends_listeners].
Qed.

Lemma follows_write_then q data r st :
  follows appends st (write_then q data r st).
Proof.
  destruct r as [[|x resp]|e]; cbn [write_then].
  - apply follows_done, appends_refl.
  - rewrite addLog_extend. apply follows_done, appends_extend.
  - apply follows_send_catch.
Qed.

Lemma send_command_await data st :
  send_command data st =
  Await (SendHidCommand (selectedDevicePath st) data)
        (extend [EvInvoke (SendHidCommand (selectedDevicePath st) data)] st)
        (write_then (selectedDevicePath st) data).
Proof.
  unfold send_command, invoke. rewrite record_invoke_extend. reflexivity.
Qed.

Lemma follows_send_command data st st0 :
  appends st0 st -> follows appends st0 (send_command data st).
Proof.
  intros H. rewrite send_command_await. apply follows_await.
  - eapply appends_trans; [exact H|apply appends_extend].
  - apply follows_write_then.
Qed.

Lemma follows_start_then q data r st :
  follows appends st (start_then q data r st).
Proof.
  destruct r as [[]|e]; cbn [start_then].
  - apply follows_send_command, appends_listeners.
  - apply follows_send_catch.
Qed.

(** The two ways a dispatch starts: with the write, or with the request
    for a listener. *)
Lemma send_await text p st :
  selectedDevicePath st = Some p -> p <> [] -> trim text <> [] ->
  sendBtn_onclick text st =
  if bool_decide (Some p ∈ activeListeners st) then
    Await (SendHidCommand (Some p) (cmdArray (trim text)))
          (extend [EvLog (out_entry (trim text));
                   EvInvoke (SendHidCommand (Some p) (cmdArray (trim text)))] st)
          (write_then (Some p) (cmdArray (trim text)))
  else
    Await (StartListening (Some p))
          (extend [EvLog (out_entry (trim text)); EvLog sys_entry;
                   EvInvoke (StartListening (Some p))] st)
          (start_then (Some p) (cmdArray (trim text))).
Proof.
  intros Hsel Hp Hne. unfold sendBtn_onclick.
  rewrite Hsel, (no_selection_some p Hp).
  destruct (trim text) as [|h hs] eqn:Eh; [congruence|]. cbv zeta.
  set (hexCmd := h :: hs) in *.
  rewrite addLog_extend. fold (out_entry hexCmd).
  cbn [selectedDevicePath activeListeners extend]. rewrite Hsel.
  destruct (decide (Some p ∈ activeListeners st)) as [Hin|Hnin].
  - rewrite (bool_decide_eq_true_2 _ Hin), send_command_await, extend_extend.
    cbn [selectedDevicePath extend]. destruct st; cbn in Hsel; subst. reflexivity.
  - rewrite (bool_decide_eq_false_2 _ Hnin).
    rewrite addLog_extend, extend_extend. fold sys_entry.
    unfold invoke. rewrite record_invoke_extend, extend_extend.
    cbn [selectedDevicePath extend]. destruct st; cbn in Hsel; subst. reflexivity.
Qed.

Lemma follows_send text st : follows appends st (sendBtn_onclick text st).
Proof.
  destruct (no_selection (selectedDevicePath st)) eqn:Hno.
  - unfold sendBtn_onclick. rewrite Hno, addLog_extend.
    apply follows_done, appends_extend.
  - destruct (decide (trim text = [])) as [E|Hne].
    + unfold sendBtn_onclick. rewrite Hno, E. apply follows_done, appends_refl.
    + destruct (selectedDevicePath st) as [p|] eqn:Hsel; [|discriminate].
      assert (p <> []) as Hp by (intros ->; discriminate).
      rewrite (send_await text p st Hsel Hp Hne).
      destruct (bool_decide _); apply follows_await;
        try apply appends_extend.
      * apply follows_write_then.
      * apply follows_start_then.
Qed.

Lemma follows_scan_then r st : follows appends st (scan_then r st).
Proof.
  rewrite scan_then_done. apply follows_done. destruct r as [ds|e].
  - repeat split; auto. exists [EvLog (found_entry (length ds))].
    split; reflexivity.
  - apply appends_extend.
Qed.

Lemma follows_scan st : follows appends st (scanBtn_onclick st).
Proof.
  rewrite scan_await. apply follows_await; [apply appends_extend|].
  apply follows_scan_then.
Qed.

Lemma follows_suspend R st t others :
  follows R st t -> R st (globals (suspend t others)).
Proof. intros [st0 st' H|st0 c st' k H _]; exact H. Qed.

Lemma known_follows w r st :
  w = scan_pending \/ (exists q, dispatch_of q w) ->
  follows appends st (pending_then w r st).
Proof.
  intros [->|(q & data & _ & [->| ->])]; cbn [pending_then scan_pending
    start_pending write_pending].
  - apply follows_scan_then.
  - apply follows_start_then.
  - apply follows_write_then.
Qed.

Lemma appends_inv st st' :
  appends st st' -> session_inv st /\ unlistenHid st = true ->
  session_inv st' /\ unlistenHid st' = true.
Proof.
  intros (A1 & A2 & A3 & A4 & A5 & _) ((Hh & Hi & Hs) & Hu).
  unfold session_inv. rewrite A1, A2, A3. auto.
Qed.

Lemma click_inv p st :
  session_inv st /\ unlistenHid st = true ->
  session_inv (device_item_click p st)
  /\ unlistenHid (device_item_click p st) = true.
Proof.
  intros ((Hh & Hi & Hs) & Hu). rewrite device_item_click_run.
  unfold session_inv.
  destruct (List.find _ _); cbn; (repeat split; auto; apply path_or_null_nonempty).
Qed.

(** The calls a send click leaves in flight. *)
Lemma send_suspend text st others :
  (exists evs, suspend (sendBtn_onclick text st) others
               = {| globals := extend evs st; in_flight := others |}
               /\ forall ev, In ev evs -> is_invoke ev = false)
  \/ exists p,
       selectedDevicePath st = Some p /\ p <> [] /\ trim text <> []
       /\ suspend (sendBtn_onclick text st) others =
          if bool_decide (Some p ∈ activeListeners st) then
            {| globals :=
                 extend [EvLog (out_entry (trim text));
                         EvInvoke (SendHidCommand (Some p) (cmdArray (trim text)))] st;
               in_flight :=
                 others ++ [write_pending (Some p) (cmdArray (trim text))] |}
          else
            {| globals :=
                 extend [EvLog (out_entry (trim text)); EvLog sys_entry;
                         EvInvoke (StartListening (Some p))] st;
               in_flight :=
                 others ++ [start_pending (Some p) (cmdArray (trim text))] |}.
Proof.
  destruct (no_selection (selectedDevicePath st)) eqn:Hno.
  - left. exists [EvLog no_selection_entry]. unfold sendBtn_onclick.
    rewrite Hno, addLog_extend. split; [reflexivity|].
    intros ev [<-|[]]. reflexivity.
  - destruct (decide (trim text = [])) as [E|Hne].
    + left. exists []. unfold sendBtn_onclick. rewrite Hno, E, extend_nil.
      split; [reflexivity|]. intros ev [].
    + right. destruct (selectedDevicePath st) as [p|] eqn:Hsel; [|discriminate].
      assert (p <> []) as Hp by (intros ->; discriminate).
      exists p. repeat split; auto.
      rewrite (send_await text p st Hsel Hp Hne).
      destruct (bool_decide _); reflexivity.
Qed.

Lemma Forall_delete {A} (P : A -> Prop) (l : list A) i :
  Forall P l -> Forall P (delete i l).
Proof.
  intros H. revert i. induction H as [|x l Hx Hl IH]; intros [|i]; simpl; auto.
Qed.

Lemma page_inv_start : page_inv start_page.
Proof.
  split; [apply session_inv_start|]. split; [reflexivity|]. constructor.
Qed.

Lemma dispatch_of_write q data :
  data <> [] -> exists q', dispatch_of q' (write_pending q data).
Proof. intros H. exists q, data. auto. Qed.

Lemma page_inv_step ev pg : page_inv pg -> page_inv (page_step ev pg).
Proof.
  intros (Hinv & Hu & Hfl).
  destruct ev as [a|p|i b]; cbn [page_step].
  - destruct a as [|i|text| |payload]; cbn [handler].
    + rewrite scan_await. split; [|split]; cbn [suspend globals in_flight].
      * apply (appends_inv (globals pg)); [apply appends_extend|auto].
      * exact Hu.
      * apply Forall_app. split; [exact Hfl|]. constructor; [auto|constructor].
    + cbn [suspend]. split; [|split]; cbn [globals in_flight]; [| |exact Hfl];
        destruct (deviceItems (globals pg) !! i); auto;
        apply click_inv; auto.
    + destruct (send_suspend text (globals pg) (in_flight pg))
        as [(evs & -> & _)|(p & Hsel & Hp & Hne & ->)].
      * split; [|split]; cbn [globals in_flight]; [| |exact Hfl];
          apply (appends_inv (globals pg)); auto; apply appends_extend.
      * destruct (bool_decide _); (split; [|split]); cbn [globals in_flight];
          try (apply (appends_inv (globals pg)); auto; apply appends_extend);
          (apply Forall_app; split; [exact Hfl|]; constructor; [|constructor];
           right; exists (Some p), (cmdArray (trim text));
           split; [apply cmdArray_nonempty|auto]).
    + cbn [suspend]. split; [|split]; cbn [globals in_flight]; auto.
    + cbn [suspend]. rewrite hid_data_event_one by apply Hinv.
      split; [|split]; cbn [globals in_flight]; [| |exact Hfl];
        apply (appends_inv (globals pg)); auto; apply appends_extend.
  - split; [|split]; cbn [globals in_flight]; [| |exact Hfl];
      apply click_inv; auto.
  - destruct (in_flight pg !! i) as [w|] eqn:Hw; [|split; auto].
    pose proof (proj1 (Forall_lookup _ _) Hfl i w Hw) as Hk.
    pose proof (Forall_delete _ _ i Hfl) as Hrest.
    destruct Hk as [->|(q & data & Hdata & [->| ->])];
      cbn [pending_then pending_call scan_pending start_pending write_pending].
    + rewrite scan_then_done. cbn [suspend].
      split; [|split]; cbn [globals in_flight]; [| |exact Hrest];
        apply (appends_inv (globals pg)); auto;
        apply (follows_suspend appends (globals pg) (Done _) []);
        rewrite <- scan_then_done; apply follows_scan_then.
    + destruct (b (StartListening q)) as [[]|e]; cbn [start_then].
      * rewrite send_command_await. cbn [suspend].
        split; [|split]; cbn [globals in_flight].
        -- apply (appends_inv (globals pg)); auto.
           eapply appends_trans; [apply appends_listeners|apply appends_extend].
        -- exact Hu.
        -- apply Forall_app. split; [exact Hrest|]. constructor; [|constructor].
           right. apply dispatch_of_write, Hdata.
      * unfold send_catch. cbv zeta. rewrite addLog_extend. cbn [suspend].
        split; [|split]; cbn [globals in_flight]; [| |exact Hrest];
          apply (appends_inv (globals pg)); auto; apply appends_extend.
    + pose proof (follows_write_then q data (b (SendHidCommand q data))
                    (globals pg)) as Hf.
      destruct (write_then q data (b (SendHidCommand q data)) (globals pg))
        as [st'|c st' k] eqn:E.
      * cbn [suspend]. split; [|split]; cbn [globals in_flight]; [| |exact Hrest];
          apply (appends_inv (globals pg)); auto;
          apply (follows_suspend appends (globals pg) (Done st') []), Hf.
      * exfalso. destruct (b (SendHidCommand q data)) as [[|x resp]|e];
          discriminate E.
Qed.

(** Every page of a session satisfies the invariant. *)
Lemma page_reachable_inv pg : page_reachable pg -> page_inv pg.
Proof.
  induction 1 as [|ev pg _ IH]; [apply page_inv_start|].
  apply page_inv_step, IH.
Qed.

(** A handler run to completion is a handler whose calls settle one by
    one with nothing in between. *)
Lemma run_as_page (b : Backend) t others :
  page_reachable (suspend t others) ->
  page_reachable {| globals := run b t; in_flight := others |}.
Proof.
  revert others. induction t as [st|c st k IH]; intros others H; [exact H|].
  cbn [run]. apply IH.
  apply (page_next (Settles (length others) b)) in H.
  cbn [page_step suspend globals in_flight] in H.
  rewrite (list_lookup_middle others [] _ (length others) eq_refl) in H.
  cbn [pending_call pending_then] in H.
  replace (delete (length others)
             (others ++ [{| pending_call := c; pending_then := k |}]))
    with others in H; [exact H|].
  clear. induction others as [|x l IHl]; simpl; [reflexivity|].
  f_equal. exact IHl.
Qed.

Lemma reachable_page st :
  reachable st -> page_reachable {| globals := st; in_flight := [] |}.
Proof.
  induction 1 as [|b a st _ IH]; [apply page_start|].
  rewrite step_is_run. apply run_as_page.
  apply (page_next (Occurs a)) in IH. exact IH.
Qed.

Lemma pg_two_reachable : page_reachable pg_two.
Proof. apply page_run_reachable, page_start. Qed.

Lemma pg_listening_reachable : page_reachable pg_listening.
Proof. apply reachable_page, st_listening_reachable. Qed.

Lemma initEventListener_again st :
  unlistenHid st = true -> hidHandlers st = 1%nat ->
  unlistenHid (initEventListener st) = true
  /\ hidHandlers (initEventListener st) = 1%nat.
Proof.
  intros Hu Hh. unfold initEventListener. rewrite Hu.
  cbn [hidHandlers set_hidHandlers set_unlistenHid unlistenHid]. rewrite Hh.
  auto.
Qed.

(** X4. When [initEventListener] is run again on a page of a session,
    any number of times and each run to its end before the next one
    begins, one callback stays subscribed to the push channel: the previous
    subscription is released before the new one is made, so a frame pushed
    afterwards is still logged once. *)
Theorem reinit_keeps_one_subscription n payload pg :
  page_reachable pg ->
  let st' := Nat.iter n initEventListener (globals pg) in
  hidHandlers st' = 1%nat
  /\ unlistenHid st' = true
  /\ hid_data_event payload st' = extend [EvLog (incoming_entry payload)] st'.
Proof.
  intros Hr. cbv zeta.
  destruct (page_reachable_inv pg Hr) as ((Hh0 & _) & Hu0 & _).
  assert (unlistenHid (Nat.iter n initEventListener (globals pg)) = true
          /\ hidHandlers (Nat.iter n initEventListener (globals pg)) = 1%nat)
    as [Hu Hh].
  { induction n as [|n [Hu Hh]]; cbn [Nat.iter].
    - split; assumption.
    - apply initEventListener_again; assumption. }
  split; [exact Hh|]. split; [exact Hu|].
  apply hid_data_event_one, Hh.
Qed.

Lemma reinit_keeps_one_subscription_witness :
  page_reachable pg_listening
  /\ hidHandlers (Nat.iter 3 initEventListener (globals pg_listening)) = 1%nat.
Proof.
  split; [apply pg_listening_reachable|].
  exact (proj1 (reinit_keeps_one_subscription 3 [] pg_listening
                  pg_listening_reachable)).
Defined.









(** X17. On every page of a session, with any calls in flight, one
    callback is subscribed to the push channel: a frame appends its one
    [incoming] entry to the log and to the trace and leaves everything
    else, the calls in flight included, as it was. *)
Theorem frame_logged_once_on_every_page payload pg :
  page_reachable pg ->
  hidHandlers (globals pg) = 1%nat
  /\ page_step (Occurs (HidData payload)) pg
     = {| globals := extend [EvLog (incoming_entry payload)] (globals pg);
          in_flight := in_flight pg |}.
Proof.
  intros Hr. destruct (page_reachable_inv pg Hr) as ((Hh & _) & _).
  split; [exact Hh|]. cbn [page_step handler suspend].
  rewrite hid_data_event_one by exact Hh. reflexivity.
Qed.

Lemma frame_logged_once_on_every_page_witness :
  let pg := page_step (Occurs (ClickSend (js "01"))) pg_two in
  page_reachable pg
  /\ List.map pending_call (in_flight pg) = [StartListening (Some (js "dev-1"))]
  /\ page_step (Occurs (HidData [0; 192; 10])) pg
     = {| globals := extend [EvLog (incoming_entry [0; 192; 10])] (globals pg);
          in_flight := in_flight pg |}.
Proof.
  cbv zeta.
  assert (page_reachable (page_step (Occurs (ClickSend (js "01"))) pg_two))
    as Hr by apply page_next, pg_two_reachable.
  split; [exact Hr|]. split; [reflexivity|].
  exact (proj2 (frame_logged_once_on_every_page [0; 192; 10] _ Hr)).
Defined.

(** Whatever the page takes next, a click on a device item apart, the
    selection stays. *)
Lemma page_step_selection ev pg :
  page_inv pg -> is_item_click ev = false ->
  selectedDevicePath (globals (page_step ev pg))
  = selectedDevicePath (globals pg).
Proof.
  intros (Hinv & Hu & Hfl) Hev.
  destruct ev as [a|p|i b]; cbn [page_step]; try discriminate Hev.
  - destruct a as [|i|text| |payload]; cbn [handler]; try discriminate Hev.
    + apply (follows_suspend appends _ _ _ (follows_scan _)).
    + apply (follows_suspend appends _ _ _ (follows_send _ _)).
    + reflexivity.
    + cbn [suspend globals]. rewrite hid_data_event_one by apply Hinv.
      reflexivity.
  - destruct (in_flight pg !! i) as [w|] eqn:Hw; [|reflexivity].
    apply (follows_suspend appends (globals pg)), known_follows.
    exact (proj1 (Forall_lookup _ _) Hfl i w Hw).
Qed.

(** X18. Only a click on a device item changes the selection: whatever
    else the page takes next (a scan, a send, a clear, a frame, or the
    settlement of a call in flight, resolved or rejected) leaves
    [selectedDevicePath] as it is. *)
Theorem selection_changes_only_by_item_click ev pg :
  page_reachable pg -> is_item_click ev = false ->
  selectedDevicePath (globals (page_step ev pg))
  = selectedDevicePath (globals pg).
Proof.
  intros Hr. apply page_step_selection, page_reachable_inv, Hr.
Qed.

Lemma selection_changes_only_by_item_click_witness :
  let b := backend_ok [] [] in
  let pg := page_step (Occurs ClickScan) pg_two in
  page_reachable pg
  /\ is_item_click (Settles 0 b) = false
  /\ scannedDevices (globals (page_step (Settles 0 b) pg)) = []
  /\ selectedDevicePath (globals (page_step (Settles 0 b) pg))
     = Some (js "dev-1").
Proof.
  cbv zeta.
  assert (page_reachable (page_step (Occurs ClickScan) pg_two)) as Hr
    by apply page_next, pg_two_reachable.
  split; [exact Hr|]. split; [reflexivity|]. split; [reflexivity|].
  rewrite (selection_changes_only_by_item_click (Settles 0 (backend_ok [] []))
             _ Hr eq_refl).
  reflexivity.
Defined.

(** X19. Sends are not serialized. When a second send is clicked while
    the first one still waits for its listener, it finds the path missing
    from the registry as the first did: [start_listening] is invoked a
    second time for the same path, both calls are in flight, and the
    registry is as it was. *)
Theorem overlapping_sends_request_twice text text' p pg :
  selectedDevicePath (globals pg) = Some p -> p <> [] ->
  trim text <> [] -> trim text' <> [] ->
  ~ hasListener p (globals pg) ->
  let pg1 := page_step (Occurs (ClickSend text)) pg in
  let pg2 := page_step (Occurs (ClickSend text')) pg1 in
  List.map pending_call (in_flight pg2)
  = List.map pending_call (in_flight pg)
    ++ [StartListening (Some p); StartListening (Some p)]
  /\ new_events (globals pg) (globals pg2)
     = [EvLog (out_entry (trim text)); EvLog sys_entry;
        EvInvoke (StartListening (Some p));
        EvLog (out_entry (trim text')); EvLog sys_entry;
        EvInvoke (StartListening (Some p))]
  /\ activeListeners (globals pg2) = activeListeners (globals pg).
Proof.
  intros Hsel Hp Hne Hne' Hnot. cbv zeta.
  apply not_listener_decide in Hnot.
  cbn [page_step handler].
  rewrite (send_await text p (globals pg) Hsel Hp Hne), Hnot.
  cbn [suspend globals in_flight].
  rewrite (send_await text' p (extend _ (globals pg)) Hsel Hp Hne').
  cbn [activeListeners extend]. rewrite Hnot.
  cbn [suspend globals in_flight]. rewrite extend_extend.
  split; [|split].
  - rewrite <- app_assoc, List.map_app. reflexivity.
  - apply new_events_extend.
  - reflexivity.
Qed.

Lemma overlapping_sends_request_twice_witness :
  selectedDevicePath (globals pg_two) = Some (js "dev-1")
  /\ js "dev-1" <> [] /\ trim (js "00 C0") <> [] /\ trim (js "0A") <> []
  /\ ~ hasListener (js "dev-1") (globals pg_two)
  /\ List.map pending_call
       (in_flight (page_step (Occurs (ClickSend (js "0A")))
                     (page_step (Occurs (ClickSend (js "00 C0"))) pg_two)))
     = [StartListening (Some (js "dev-1")); StartListening (Some (js "dev-1"))].
Proof.
  assert (js "dev-1" <> []) as Hp by discriminate.
  assert (trim (js "00 C0") <> []) as Hne by discriminate.
  assert (trim (js "0A") <> []) as Hne' by discriminate.
  assert (~ hasListener (js "dev-1") (globals pg_two)) as Hnot
    by (apply not_listener_decide; vm_compute; reflexivity).
  split; [reflexivity|]. split; [exact Hp|]. split; [exact Hne|].
  split; [exact Hne'|]. split; [exact Hnot|].
  exact (proj1 (overlapping_sends_request_twice (js "00 C0") (js "0A")
                  (js "dev-1") pg_two eq_refl Hp Hne Hne' Hnot)).
Defined.

(* ===================================================================== *)
(** ** The registry while handlers interleave *)
(* ===================================================================== *)

Lemma send_catch_done e st :
  send_catch e st =
  Done (set_activeListeners (activeListeners st ∖ {[selectedDevicePath st]})
          (extend [EvLog (failure_entry e)] st)).
Proof. unfold send_catch. cbv zeta. rewrite addLog_extend. reflexivity. Qed.

(** A part of a handler that makes no write keeps the invariant of the
    registry, provided what it adds to the registry was requested. *)
Lemma registry_inv_update st st' evs :
  registry_inv st ->
  history st' = history st ++ evs ->
  (forall q, q ∈ activeListeners st' ->
     q ∈ activeListeners st
     \/ no_selection q = false
        /\ In (EvInvoke (StartListening q)) (history st ++ evs)) ->
  (forall k q d,
     evs !! k = Some (EvInvoke (SendHidCommand q d)) ->
     d <> [] /\ no_selection q = false
     /\ In (EvInvoke (StartListening q)) (history st ++ take k evs)) ->
  registry_inv st'.
Proof.
  intros [Hreg Hwr] Hh Hreg' Hwr'. split.
  - intros q Hq. rewrite Hh. destruct (Hreg' q Hq) as [Hold|Hnew]; [|exact Hnew].
    destruct (Hreg q Hold) as [H1 H2]. split; [exact H1|].
    apply in_or_app. auto.
  - intros i q d Hi. rewrite Hh in *.
    apply lookup_app_Some in Hi as [Hi|[Hle Hi]].
    + destruct (Hwr i q d Hi) as (H1 & H2 & H3). repeat split; auto.
      rewrite take_app_le by (apply lookup_lt_Some in Hi; lia). exact H3.
    + destruct (Hwr' _ q d Hi) as (H1 & H2 & H3). repeat split; auto.
      rewrite take_app_ge by lia. exact H3.
Qed.

(** The calls in flight stay in order while the selection stays and the
    trace grows. *)
Lemma in_flight_mono (st st' : State) (l : list Pending) evs :
  selectedDevicePath st' = selectedDevicePath st ->
  history st' = history st ++ evs ->
  Forall (fun w =>
       w = scan_pending
       \/ (dispatch_of (selectedDevicePath st) w
           /\ no_selection (selectedDevicePath st) = false
           /\ In (EvInvoke (StartListening (selectedDevicePath st))) (history st)))
     l ->
  Forall (fun w =>
       w = scan_pending
       \/ (dispatch_of (selectedDevicePath st') w
           /\ no_selection (selectedDevicePath st') = false
           /\ In (EvInvoke (StartListening (selectedDevicePath st'))) (history st')))
     l.
Proof.
  intros Hs Hh Hl. eapply List.Forall_impl; [|exact Hl].
  intros w [->|(H1 & H2 & H3)]; [auto|].
  right. rewrite Hs, Hh. repeat split; auto. apply in_or_app. auto.
Qed.

(** A part of a handler that makes no call to a device and adds nothing
    to the registry. *)
Lemma calm_inv_quiet pg st' evs others :
  calm_inv pg ->
  history st' = history (globals pg) ++ evs ->
  (forall q, q ∈ activeListeners st' -> q ∈ activeListeners (globals pg)) ->
  selectedDevicePath st' = selectedDevicePath (globals pg) ->
  (forall ev, In ev evs -> is_invoke ev = false \/ ev = EvInvoke ScanHidDevices) ->
  others = in_flight pg \/ others = in_flight pg ++ [scan_pending]
  \/ (exists i, others = delete i (in_flight pg)) ->
  calm_inv {| globals := st'; in_flight := others |}.
Proof.
  intros [Hreg Hfl] Hh Ha Hs Hq Hothers.
  split; cbn [globals in_flight].
  - apply (registry_inv_update (globals pg) st' evs Hreg Hh).
    + intros q Hq'. left. apply Ha, Hq'.
    + intros k q d Hk. exfalso.
      apply list_elem_of_lookup_2, list_elem_of_In, Hq in Hk.
      destruct Hk; discriminate.
  - pose proof (in_flight_mono _ st' _ evs Hs Hh Hfl) as Hfl'.
    destruct Hothers as [->|[->|(i & ->)]].
    + exact Hfl'.
    + apply Forall_app. split; [exact Hfl'|]. constructor; [auto|constructor].
    + apply Forall_delete, Hfl'.
Qed.

Lemma calm_inv_start : calm_inv start_page.
Proof.
  split; [split|constructor].
  - intros q Hq. exfalso. revert Hq.
    apply (not_elem_of_empty (C:=gset (option (list N)))).
  - intros i q d H. destruct i; discriminate H.
Qed.

Lemma calm_inv_click p pg :
  in_flight pg = [] -> calm_inv pg ->
  calm_inv {| globals := device_item_click p (globals pg);
              in_flight := in_flight pg |}.
Proof.
  intros Hnil [Hreg _]. split; cbn [globals in_flight];
    [|rewrite Hnil; constructor].
  rewrite device_item_click_run. destruct (List.find _ _) as [d|].
  - apply (registry_inv_update (globals pg) _ [EvLog (selected_entry d)] Hreg);
      [reflexivity|auto|].
    intros [|[|k]] q d' Hk; discriminate Hk.
  - apply (registry_inv_update (globals pg) _ [] Hreg);
      [symmetry; apply app_nil_r|auto|].
    intros k q d' Hk. destruct k; discriminate Hk.
Qed.

Lemma no_selection_false q :
  no_selection q = false -> exists p, q = Some p /\ p <> [].
Proof.
  destruct q as [[|c r]|]; try discriminate. intros _. exists (c :: r).
  split; [reflexivity|discriminate].
Qed.

Lemma calm_inv_step ev pg :
  page_inv pg -> calm_inv pg -> calm ev pg -> calm_inv (page_step ev pg).
Proof.
  intros (Hinv & Hu & Hknown) Hci Hcalm.
  destruct ev as [a|p|i b]; cbn [page_step].
  - destruct a as [|i|text| |payload]; cbn [handler].
    + rewrite scan_await. cbn [suspend].
      apply (calm_inv_quiet pg _ [EvLog scanning_entry; EvInvoke ScanHidDevices]);
        auto.
      intros ev [<-|[<-|[]]]; auto.
    + cbn [suspend]. destruct (deviceItems (globals pg) !! i) as [p|].
      * apply calm_inv_click; [apply Hcalm; reflexivity|exact Hci].
      * destruct pg; exact Hci.
    + destruct (send_suspend text (globals pg) (in_flight pg))
        as [(evs & -> & Hlog)|(p & Hsel & Hp & Hne & ->)].
      * apply (calm_inv_quiet pg _ evs); auto.
      * destruct Hci as [Hreg Hfl].
        destruct (bool_decide (Some p ∈ activeListeners (globals pg))) eqn:El.
        -- apply bool_decide_eq_true in El.
           destruct (proj1 Hreg _ El) as [_ Hreq].
           split; cbn [globals in_flight].
           ++ eapply (registry_inv_update (globals pg) _ _ Hreg);
                [reflexivity|auto|].
              intros [|[|k]] q d Hk; try discriminate Hk.
              injection Hk as <- <-.
              split; [apply cmdArray_nonempty|].
              split; [apply no_selection_some, Hp|].
              apply in_or_app. auto.
           ++ apply Forall_app. split.
              ** eapply in_flight_mono; [| |exact Hfl]; reflexivity.
              ** constructor; [|constructor]. right.
                 cbn [selectedDevicePath extend history]. rewrite Hsel.
                 split; [exists (cmdArray (trim text));
                         split; [apply cmdArray_nonempty|auto]|].
                 split; [apply no_selection_some, Hp|].
                 apply in_or_app. auto.
        -- split; cbn [globals in_flight].
           ++ eapply (registry_inv_update (globals pg) _ _ Hreg);
                [reflexivity|auto|].
              intros [|[|[|k]]] q d Hk; discriminate Hk.
           ++ apply Forall_app. split.
              ** eapply in_flight_mono; [| |exact Hfl]; reflexivity.
              ** constructor; [|constructor]. right.
                 cbn [selectedDevicePath extend history]. rewrite Hsel.
                 split; [exists (cmdArray (trim text));
                         split; [apply cmdArray_nonempty|auto]|].
                 split; [apply no_selection_some, Hp|].
                 apply in_or_app. right. simpl. auto.
    + cbn [suspend]. apply (calm_inv_quiet pg _ []); auto.
      * symmetry. apply app_nil_r.
      * intros ev [].
    + cbn [suspend]. rewrite hid_data_event_one by apply Hinv.
      apply (calm_inv_quiet pg _ [EvLog (incoming_entry payload)]); auto.
      intros ev [<-|[]]. auto.
  - apply calm_inv_click; [apply Hcalm; reflexivity|exact Hci].
  - destruct (in_flight pg !! i) as [w|] eqn:Hw; [|exact Hci].
    pose proof Hci as [Hreg Hfl].
    pose proof (proj1 (Forall_lookup _ _) Hfl i w Hw) as Hk.
    destruct Hk as [->|((data & Hdata & [->| ->]) & Hno & Hreq)];
      cbn [pending_then pending_call scan_pending start_pending write_pending].
    + rewrite scan_then_done. cbn [suspend].
      destruct (b ScanHidDevices) as [ds|e].
      * apply (calm_inv_quiet pg _ [EvLog (found_entry (length ds))]); eauto.
        intros ev [<-|[]]. auto.
      * apply (calm_inv_quiet pg _ [EvLog (scan_error_entry e)]); eauto.
        intros ev [<-|[]]. auto.
    + destruct (b (StartListening (selectedDevicePath (globals pg)))) as [[]|e];
        cbn [start_then].
      * rewrite send_command_await. cbn [suspend selectedDevicePath
          set_activeListeners].
        split; cbn [globals in_flight].
        -- eapply (registry_inv_update (globals pg) _
                     [EvInvoke (SendHidCommand (selectedDevicePath (globals pg))
                                  data)] Hreg); [reflexivity| |].
           ++ intros q Hq. cbn [activeListeners extend set_activeListeners] in Hq.
              apply elem_of_union in Hq as [Hq%elem_of_singleton|Hq]; [|auto].
              subst q. right. split; [exact Hno|]. apply in_or_app. auto.
           ++ intros [|k] q d Hk; [|destruct k; discriminate Hk].
              injection Hk as <- <-. rewrite app_nil_r. auto.
        -- apply Forall_app. split.
           ++ apply Forall_delete.
              eapply in_flight_mono; [| |exact Hfl]; reflexivity.
           ++ constructor; [|constructor]. right.
              cbn [selectedDevicePath extend history set_activeListeners].
              split; [exists data; auto|]. split; [exact Hno|].
              apply in_or_app. auto.
      * rewrite send_catch_done. cbn [suspend].
        apply (calm_inv_quiet pg _ [EvLog (failure_entry e)]); eauto.
        -- intros q Hq. cbn [activeListeners extend set_activeListeners] in Hq.
           apply elem_of_difference in Hq as [Hq _]. exact Hq.
        -- intros ev [<-|[]]. auto.
    + destruct (b (SendHidCommand (selectedDevicePath (globals pg)) data))
        as [[|x resp]|e]; cbn [write_then].
      * cbn [suspend]. apply (calm_inv_quiet pg _ []); eauto.
        -- symmetry. apply app_nil_r.
        -- intros ev [].
      * rewrite addLog_extend. cbn [suspend].
        apply (calm_inv_quiet pg _ [EvLog (result_entry (x :: resp))]); eauto.
        intros ev [<-|[]]. auto.
      * rewrite send_catch_done. cbn [suspend].
        apply (calm_inv_quiet pg _ [EvLog (failure_entry e)]); eauto.
        -- intros q Hq. cbn [activeListeners extend set_activeListeners] in Hq.
           apply elem_of_difference in Hq as [Hq _]. exact Hq.
        -- intros ev [<-|[]]. auto.
Qed.

Lemma calm_page_reachable pg : calm_reachable pg -> page_reachable pg.
Proof. induction 1; [apply page_start|apply page_next; assumption]. Qed.

Lemma calm_reachable_inv pg : calm_reachable pg -> calm_inv pg.
Proof.
  induction 1 as [|ev pg Hr IH Hc]; [apply calm_inv_start|].
  apply calm_inv_step; [apply page_reachable_inv, calm_page_reachable, Hr| |];
    assumption.
Qed.

Lemma calm_run_reachable evs pg :
  calm_reachable pg -> calm_all evs pg -> calm_reachable (page_run evs pg).
Proof.
  revert pg. induction evs as [|ev evs IH]; intros pg Hr Hc; [exact Hr|].
  destruct Hc as [Hc Hrest]. cbn [page_run]. apply IH; [|exact Hrest].
  apply calm_next; assumption.
Qed.

(** C1, where the code departs from it. The handler reads
    [selectedDevicePath] again after each [await] (main.ts:175, 180, 193),
    so a click on another device item while a call of the dispatch is
    pending moves what the handler does next to the other path.

    First session: [dev-1] is selected and not in the registry; Send is
    clicked, and [dev-2] is clicked while [start_listening] for [dev-1] is
    pending. The call resolves: the registry then holds [dev-2], for which
    no listener was requested, and not [dev-1], and the write goes to
    [dev-2].

    Second session: [dev-1] is selected and in the registry; Send is
    clicked, [dev-2] is clicked while the write to [dev-1] is pending, and
    the write is rejected. The [catch] block deletes [dev-2]: [dev-1] stays
    in the registry, and the next send for [dev-1] goes straight to the
    write, with no [start_listening]. *)
Theorem listener_registry_race :
  let b := backend_ok [dev1; dev2] [170] in
  let bad := backend_write_fails (js "pipe broken") in
  (let pg1 := page_step (Occurs (ClickSend (js "01"))) pg_two in
   let pg2 := page_run [Occurs (ClickItem 1); Settles 0 b] pg1 in
   page_reachable pg2
   /\ selectedDevicePath (globals pg_two) = Some (js "dev-1")
   /\ ~ hasListener (js "dev-1") (globals pg_two)
   /\ List.map pending_call (in_flight pg1) = [StartListening (Some (js "dev-1"))]
   /\ b (StartListening (Some (js "dev-1"))) = Resolved tt
   /\ List.filter is_invoke (new_events (globals pg_two) (globals pg2))
      = [EvInvoke (StartListening (Some (js "dev-1")));
         EvInvoke (SendHidCommand (Some (js "dev-2")) [Int 1])]
   /\ ~ hasListener (js "dev-1") (globals pg2)
   /\ hasListener (js "dev-2") (globals pg2))
  /\ (let pg1 := page_step (Occurs (ClickSend (js "0A"))) pg_listening in
      let pg2 := page_run [Occurs (ClickItem 1); Settles 0 bad] pg1 in
      let pg3 :=
        page_run [Occurs (ClickItem 0); Occurs (ClickSend (js "0A"))] pg2 in
      page_reachable pg3
      /\ selectedDevicePath (globals pg_listening) = Some (js "dev-1")
      /\ hasListener (js "dev-1") (globals pg_listening)
      /\ List.map pending_call (in_flight pg1)
         = [SendHidCommand (Some (js "dev-1")) [Int 10]]
      /\ bad (SendHidCommand (Some (js "dev-1")) [Int 10])
         = Rejected (js "pipe broken")
      /\ new_events (globals pg1) (globals pg2)
         = [EvLog (selected_entry dev2); EvLog (failure_entry (js "pipe broken"))]
      /\ hasListener (js "dev-1") (globals pg2)
      /\ selectedDevicePath (globals pg3) = Some (js "dev-1")
      /\ List.filter is_invoke (new_events (globals pg2) (globals pg3))
         = [EvInvoke (SendHidCommand (Some (js "dev-1")) [Int 10])]).
Proof.
  cbv zeta. split.
  - split; [apply page_run_reachable, page_next, pg_two_reachable|].
    split; [reflexivity|].
    split; [apply not_listener_decide; vm_compute; reflexivity|].
    split; [reflexivity|]. split; [reflexivity|].
    split; [vm_compute; reflexivity|].
    split; [apply not_listener_decide; vm_compute; reflexivity|].
    apply has_listener_decide. vm_compute. reflexivity.
  - split; [apply page_run_reachable, page_run_reachable, page_next,
            pg_listening_reachable|].
    split; [reflexivity|].
    split; [apply has_listener_decide; vm_compute; reflexivity|].
    split; [vm_compute; reflexivity|]. split; [reflexivity|].
    split; [vm_compute; reflexivity|].
    split; [apply has_listener_decide; vm_compute; reflexivity|].
    split; vm_compute; reflexivity.
Qed.

Lemma overlapping_sends_calm :
  calm_reachable (page_run overlapping_sends start_page).
Proof.
  apply calm_run_reachable; [apply calm_start|].
  repeat split; intros H; try discriminate H; reflexivity.
Qed.

(** X6. As long as no device item is clicked while a call is in flight,
    the listener registry holds only non-empty paths, and only paths for
    which [start_listening] was invoked earlier in the session. Scans,
    sends, frames, clears and the settlements of calls may interleave in
    any way. *)
Theorem registry_holds_requested_paths pg q :
  calm_reachable pg -> q ∈ activeListeners (globals pg) ->
  exists p, q = Some p /\ p <> []
            /\ In (EvInvoke (StartListening (Some p))) (history (globals pg)).
Proof.
  intros Hr Hq.
  destruct (proj1 (proj1 (calm_reachable_inv pg Hr)) q Hq) as [Hno Hin].
  destruct (no_selection_false q Hno) as (p & -> & Hp). exists p. auto.
Qed.

Lemma registry_holds_requested_paths_witness :
  let pg := page_run overlapping_sends start_page in
  calm_reachable pg
  /\ Some (js "dev-1") ∈ activeListeners (globals pg)
  /\ exists p, Some (js "dev-1") = Some p /\ p <> []
       /\ In (EvInvoke (StartListening (Some p))) (history (globals pg)).
Proof.
  cbv zeta.
  assert (Some (js "dev-1")
          ∈ activeListeners (globals (page_run overlapping_sends start_page)))
    as Hq by (apply (bool_decide_unpack _); vm_compute; exact I).
  split; [apply overlapping_sends_calm|]. split; [exact Hq|].
  exact (registry_holds_requested_paths _ (Some (js "dev-1"))
           overlapping_sends_calm Hq).
Defined.

(** X7. As long as no device item is clicked while a call is in flight,
    every [send_hid_command] goes to a non-empty path, carries at least one
    element, and comes after a [start_listening] for the same path: no
    device is written to before its listener was requested. *)
Theorem every_write_follows_a_listener_request pg i q d :
  calm_reachable pg ->
  history (globals pg) !! i = Some (EvInvoke (SendHidCommand q d)) ->
  d <> [] /\ (exists p, q = Some p /\ p <> [])
  /\ exists j, (j < i)%nat
       /\ history (globals pg) !! j = Some (EvInvoke (StartListening q)).
Proof.
  intros Hr Hi.
  destruct (proj2 (proj1 (calm_reachable_inv pg Hr)) i q d Hi)
    as (Hd & Hno & Hin).
  split; [exact Hd|]. split; [apply no_selection_false, Hno|].
  apply list_elem_of_In, list_elem_of_lookup in Hin as [j Hj].
  apply lookup_take_Some in Hj as [Hj Hlt]. exists j. auto.
Qed.

Lemma every_write_follows_a_listener_request_witness :
  let pg := page_run overlapping_sends start_page in
  calm_reachable pg
  /\ history (globals pg) !! 12%nat
     = Some (EvInvoke (SendHidCommand (Some (js "dev-1")) [Int 10]))
  /\ exists j, (j < 12)%nat
       /\ history (globals pg) !! j
          = Some (EvInvoke (StartListening (Some (js "dev-1")))).
Proof.
  cbv zeta.
  assert (history (globals (page_run overlapping_sends start_page)) !! 12%nat
          = Some (EvInvoke (SendHidCommand (Some (js "dev-1")) [Int 10])))
    as Hi by (vm_compute; reflexivity).
  split; [apply overlapping_sends_calm|]. split; [exact Hi|].
  exact (proj2 (proj2 (every_write_follows_a_listener_request _ 12 _ _
                         overlapping_sends_calm Hi))).
Defined.

Lemma calm_pending_path pg i w :
  calm_reachable pg -> in_flight pg !! i = Some w ->
  forall q data,
    w = start_pending q data \/ w = write_pending q data ->
    q = selectedDevicePath (globals pg) /\ no_selection q = false
    /\ In (EvInvoke (StartListening q)) (history (globals pg)).
Proof.
  intros Hr Hw q data Hq.
  destruct (calm_reachable_inv pg Hr) as [_ Hfl].
  pose proof (proj1 (Forall_lookup _ _) Hfl i w Hw) as Hk.
  destruct Hk as [->|((data' & Hdata & Hk) & Hno & Hreq)].
  - exfalso. destruct Hq as [H|H]; apply (f_equal pending_call) in H;
      discriminate H.
  - assert (pending_call w = StartListening q /\ 
            pending_call w = StartListening (selectedDevicePath (globals pg))
            \/ pending_call w = SendHidCommand q data /\
               pending_call w
               = SendHidCommand (selectedDevicePath (globals pg)) data') as Hc.
    { destruct Hq as [->| ->], Hk as [H|H];
        pose proof (f_equal pending_call H) as E; cbn in E;
        try discriminate E; [left|right]; split; auto. }
    destruct Hc as [[E1 E2]|[E1 E2]]; rewrite E1 in E2; injection E2 as ->;
      subst; repeat split; auto.
Qed.

(** X20. As long as no device item is clicked while a call is in flight,
    the settlement of a call of a dispatch finds the path the call was made
    for still selected, and updates the registry for that path. When
    [start_listening] resolves, the path is put in the registry and the
    write to it is invoked. When [start_listening] or the write is
    rejected, the path is taken out of the registry and the failure is
    logged. A resolved write leaves the registry as it is and logs the
    response, unless it is empty. *)
Theorem calm_settlement_keeps_registry pg i q data (b : Backend) :
  calm_reachable pg ->
  let pg' := page_step (Settles i b) pg in
  (in_flight pg !! i = Some (start_pending q data) ->
     q = selectedDevicePath (globals pg)
     /\ In (EvInvoke (StartListening q)) (history (globals pg))
     /\ match b (StartListening q) with
        | Resolved _ =>
            q ∈ activeListeners (globals pg')
            /\ new_events (globals pg) (globals pg')
               = [EvInvoke (SendHidCommand q data)]
            /\ in_flight pg' = delete i (in_flight pg) ++ [write_pending q data]
        | Rejected e =>
            (q ∉ activeListeners (globals pg'))
            /\ new_events (globals pg) (globals pg') = [EvLog (failure_entry e)]
            /\ in_flight pg' = delete i (in_flight pg)
        end)
  /\ (in_flight pg !! i = Some (write_pending q data) ->
      q = selectedDevicePath (globals pg)
      /\ In (EvInvoke (StartListening q)) (history (globals pg))
      /\ in_flight pg' = delete i (in_flight pg)
      /\ match b (SendHidCommand q data) with
         | Resolved resp =>
             activeListeners (globals pg') = activeListeners (globals pg)
             /\ new_events (globals pg) (globals pg')
                = match resp with
                  | [] => []
                  | _ :: _ => [EvLog (result_entry resp)]
                  end
         | Rejected e =>
             (q ∉ activeListeners (globals pg'))
             /\ new_events (globals pg) (globals pg') = [EvLog (failure_entry e)]
         end).
Proof.
  intros Hr. cbv zeta. split; intros Hw.
  - destruct (calm_pending_path pg i _ Hr Hw q data (or_introl eq_refl))
      as (Hq & _ & Hreq).
    split; [exact Hq|]. split; [exact Hreq|].
    cbn [page_step]. rewrite Hw. cbn [pending_call pending_then start_pending].
    destruct (b (StartListening q)) as [[]|e]; cbn [start_then].
    + rewrite send_command_await. cbn [suspend globals in_flight].
      cbn [selectedDevicePath set_activeListeners]. rewrite <- Hq.
      split; [apply elem_of_union_l, elem_of_singleton; reflexivity|].
      split; [|reflexivity].
      unfold new_events. cbn [history extend set_activeListeners].
      apply drop_app_length.
    + rewrite send_catch_done. cbn [suspend globals in_flight].
      cbn [selectedDevicePath activeListeners extend set_activeListeners].
      rewrite <- Hq.
      split; [intros [_ H]%elem_of_difference; apply H, elem_of_singleton;
              reflexivity|].
      split; [apply new_events_listeners|reflexivity].
  - destruct (calm_pending_path pg i _ Hr Hw q data (or_intror eq_refl))
      as (Hq & _ & Hreq).
    split; [exact Hq|]. split; [exact Hreq|].
    cbn [page_step]. rewrite Hw. cbn [pending_call pending_then write_pending].
    destruct (b (SendHidCommand q data)) as [[|x resp]|e]; cbn [write_then].
    + cbn [suspend globals in_flight]. split; [reflexivity|].
      split; [reflexivity|]. unfold new_events. apply drop_all.
    + rewrite addLog_extend. cbn [suspend globals in_flight].
      split; [reflexivity|]. split; [reflexivity|]. apply new_events_extend.
    + rewrite send_catch_done. cbn [suspend globals in_flight].
      split; [reflexivity|].
      cbn [selectedDevicePath activeListeners extend set_activeListeners].
      rewrite <- Hq.
      split; [intros [_ H]%elem_of_difference; apply H, elem_of_singleton;
              reflexivity|].
      apply new_events_listeners.
Qed.

Lemma calm_settlement_keeps_registry_witness :
  let b := backend_ok [dev1; dev2] [170] in
  let pg := page_step (Occurs (ClickSend (js "01"))) pg_two in
  let data := cmdArray (trim (js "01")) in
  calm_reachable pg
  /\ in_flight pg !! 0%nat = Some (start_pending (Some (js "dev-1")) data)
  /\ Some (js "dev-1") ∈ activeListeners (globals (page_step (Settles 0 b) pg))
  /\ in_flight (page_step (Settles 0 b) pg)
     = delete 0%nat (in_flight pg) ++ [write_pending (Some (js "dev-1")) data].
Proof.
  cbv zeta.
  assert (calm_reachable (page_step (Occurs (ClickSend (js "01"))) pg_two))
    as Hr.
  { apply calm_next; [|intros H; discriminate H].
    unfold pg_two. apply calm_run_reachable; [apply calm_start|].
    repeat split; intros H; try discriminate H; reflexivity. }
  assert (in_flight (page_step (Occurs (ClickSend (js "01"))) pg_two) !! 0%nat
          = Some (start_pending (Some (js "dev-1")) (cmdArray (trim (js "01")))))
    as Hw.
  { cbn [page_step handler].
    rewrite (send_await (js "01") (js "dev-1") (globals pg_two) eq_refl)
      by discriminate.
    assert (~ hasListener (js "dev-1") (globals pg_two)) as Hnot
      by (apply not_listener_decide; vm_compute; reflexivity).
    apply not_listener_decide in Hnot. rewrite Hnot. reflexivity. }
  split; [exact Hr|]. split; [exact Hw|].
  destruct (proj1 (calm_settlement_keeps_registry _ 0 (Some (js "dev-1"))
                     (cmdArray (trim (js "01")))
                     (backend_ok [dev1; dev2] [170]) Hr) Hw)
    as (_ & _ & H1 & _ & H3).
  split; [exact H1|exact H3].
Defined.

(* ===================================================================== *)
(** ** The second source file: hex dump, target and session *)
(* ===================================================================== *)















Example dump_example :
  Part000.debugOutput (List.map Z.of_nat (seq 250 6) ++ List.map Z.of_nat (seq 0 12))
  = Part000.dump_header 18
    ++ js "FA FB FC FD FE FF 00 01 02 03 04 05 06 07 08 09" ++ 10%N
    :: js "0A 0B" ++ [10%N].
Proof. vm_compute. reflexivity. Qed.

(** The effects of a send click. *)
Lemma part000_send_effects lower (b : Part000.Backend) value st :
  let st' := Part000.sendBtn_onclick lower b value st in
  Part000.scannedDevices st' = Part000.scannedDevices st
  /\ Part000.deviceListDiv st' = Part000.deviceListDiv st
  /\ Part000.effects st' =
     Part000.effects st ++
     match List.find (Part000.is_target lower) (Part000.scannedDevices st) with
     | None => []
     | Some target =>
         match trim value with
         | [] => [Part000.Alert]
         | _ :: _ =>
             let data := cmdArray (trim value) in
             Part000.InvokeSend (Part000.path target) data
             :: match Part000.send_hid_command b (Part000.path target) data with
                | Resolved _ => []
                | Rejected err => [Part000.ConsoleError err]
                end
         end
     end.
Proof.
  cbv zeta. unfold Part000.sendBtn_onclick.
  destruct (List.find _ _) as [target|].
  - destruct (trim value) as [|h hs]; [auto|]. cbv zeta.
    fold (cmdArray (h :: hs)).
    destruct (Part000.send_hid_command b _ _) as [[|x resp]|err];
      cbn [Part000.scannedDevices Part000.deviceListDiv Part000.effects
           Part000.set_status Part000.perform];
      rewrite <- ?app_assoc; auto.
  - cbn [Part000.scannedDevices Part000.deviceListDiv Part000.effects
         Part000.set_status]. rewrite app_nil_r. auto.
Qed.

(** X15. A send click of the second page writes to a device exactly when
    the catalog has a target and the text is not blank. The write then goes
    to the first descriptor of the catalog that passes the three-part test
    (vendor and product identifiers compared in lower case, usage page
    65280), so never to an interface with another usage page, and it
    carries the encoded tokens of the text. The catalog is not changed. *)
Theorem part000_write_goes_to_the_target (lower : JsString -> JsString)
    (b : Part000.Backend) value st :
  let st' := Part000.sendBtn_onclick lower b value st in
  let new := drop (length (Part000.effects st)) (Part000.effects st') in
  let target :=
    List.find (Part000.is_target lower) (Part000.scannedDevices st) in
  ((exists path data, In (Part000.InvokeSend path data) new)
   <-> target <> None /\ forallb is_ws value = false)
  /\ (forall path data,
        In (Part000.InvokeSend path data) new ->
        exists d,
          target = Some d /\ In d (Part000.scannedDevices st)
          /\ Part000.path d = path
          /\ Part000.usage_page d = 65280
          /\ lower (Part000.vendor_id d) = js "0x2dbf"
          /\ lower (Part000.product_id d) = js "0x5038"
          /\ data = List.map parseInt16 (tokens value))
  /\ Part000.scannedDevices st' = Part000.scannedDevices st.
Proof.
  cbv zeta. destruct (part000_send_effects lower b value st) as (Hds & _ & ->).
  rewrite drop_app_length.
  assert (trim value = [] <-> forallb is_ws value <> false) as Hblank.
  { rewrite trim_blank. destruct (forallb is_ws value); split; congruence. }
  destruct (List.find _ _) as [d|] eqn:Hfind.
  - pose proof (find_some _ _ Hfind) as [Hin Ht].
    unfold Part000.is_target in Ht.
    apply andb_prop in Ht as [Ht Hup]. apply andb_prop in Ht as [Hv Hpid].
    apply bool_decide_eq_true in Hv, Hpid. apply Z.eqb_eq in Hup.
    destruct (trim value) as [|h hs] eqn:Eh.
    + cbn [In]. split; [|split; [|exact Hds]].
      * split.
        -- intros (pa & da & [H|[]]). discriminate H.
        -- intros [_ H]. exfalso. apply (proj1 Hblank); auto.
      * intros pa da [H|[]]. discriminate H.
    + assert (trim value <> []) as Hne by congruence.
      assert (forallb is_ws value = false) as Hnb.
      { destruct (forallb is_ws value) eqn:E; [|reflexivity].
        exfalso. apply Hne, trim_blank, E. }
      cbv zeta. rewrite <- Eh. cbn [In]. split; [|split; [|exact Hds]].
      * split; [intros _; split; [discriminate|exact Hnb]|].
        intros _. eexists _, _. left. reflexivity.
      * intros pa da Hpa. exists d.
        assert (Part000.InvokeSend (Part000.path d) (cmdArray (trim value))
                = Part000.InvokeSend pa da) as E.
        { destruct Hpa as [H|Hpa]; [exact H|].
          destruct (Part000.send_hid_command b _ _); cbn [In] in Hpa;
            [destruct Hpa|destruct Hpa as [H|[]]; discriminate H]. }
        injection E as <- <-. rewrite cmdArray_tokens by exact Hne.
        repeat split; auto.
  - cbn [In]. split; [|split; [|exact Hds]].
    + split; [intros (pa & da & [])|intros [H _]; congruence].
    + intros pa da [].
Qed.

Example part000_send_example :
  let b := Part000.backend_ok [Part000.keyboard; Part000.control] [170] in
  let st := Part000.scanBtn_onclick b Part000.initial in
  Part000.effects (Part000.sendBtn_onclick ascii_lower b (js "00 C0") st)
  = [Part000.InvokeScan;
     Part000.InvokeSend (Part000.path Part000.control) [Int 0; Int 192]]
  /\ Part000.effects
       (Part000.sendBtn_onclick ascii_lower b (js "00 C0") Part000.initial)
     = [].
Proof. split; vm_compute; reflexivity. Qed.

Lemma part000_scan_effects (b : Part000.Backend) st :
  let st' := Part000.scanBtn_onclick b st in
  Part000.effects st' = Part000.effects st ++ [Part000.InvokeScan]
  /\ match Part000.scan_hid_devices b with
     | Resolved ds =>
         Part000.scannedDevices st' = ds /\ Part000.deviceListDiv st' = Some ds
     | Rejected _ =>
         Part000.scannedDevices st' = Part000.scannedDevices st
         /\ Part000.deviceListDiv st' = Part000.deviceListDiv st
     end.
Proof.
  cbv zeta. unfold Part000.scanBtn_onclick.
  destruct (Part000.scan_hid_devices b); auto.
Qed.

Lemma part000_inv lower st :
  Part000.reachable lower st ->
  (Part000.deviceListDiv st = None /\ Part000.scannedDevices st = []
   \/ Part000.deviceListDiv st = Some (Part000.scannedDevices st))
  /\ (Part000.scannedDevices st <> [] ->
      In Part000.InvokeScan (Part000.effects st))
  /\ (forall i path data,
        Part000.effects st !! i = Some (Part000.InvokeSend path data) ->
        exists j, (j < i)%nat
                  /\ Part000.effects st !! j = Some Part000.InvokeScan).
Proof.
  induction 1 as [|b a st Hr (Hlist & Hscan & Hsend)].
  - split; [left; split; reflexivity|]. split; [intros H; exfalso; apply H; reflexivity|].
    intros i pa da H. destruct i; discriminate H.
  - destruct a as [|value]; cbn [Part000.step].
    + destruct (part000_scan_effects b st) as (-> & Hres). split; [|split].
      * destruct (Part000.scan_hid_devices b) as [ds|e];
          destruct Hres as [-> ->]; auto.
      * intros _. apply in_or_app. right. left. reflexivity.
      * intros i pa da Hi. apply lookup_app_Some in Hi as [Hi | [_ Hi]].
        -- destruct (Hsend i pa da Hi) as (j & Hj & Hs). exists j.
           split; [exact Hj|]. apply lookup_app_l_Some, Hs.
        -- destruct (i - length (Part000.effects st))%nat as [|[|k]];
             discriminate Hi.
    + destruct (part000_send_effects lower b value st) as (-> & -> & ->).
      split; [exact Hlist|]. split.
      * intros Hne. apply in_or_app. left. apply Hscan, Hne.
      * intros i pa da Hi. apply lookup_app_Some in Hi as [Hi | [Hle Hi]].
        -- destruct (Hsend i pa da Hi) as (j & Hj & Hs). exists j.
           split; [exact Hj|]. apply lookup_app_l_Some, Hs.
        -- destruct (List.find _ _) as [d|] eqn:Hfind;
             [|destruct (i - _)%nat; discriminate Hi].
           assert (Part000.scannedDevices st <> []) as Hne.
           { intros E. rewrite E in Hfind. discriminate Hfind. }
           apply Hscan, list_elem_of_In, list_elem_of_lookup in Hne as [j Hj].
           exists j. split; [apply lookup_lt_Some in Hj; lia|].
           apply lookup_app_l_Some, Hj.
Qed.

(** X16. In a session of the second page the device list shows exactly
    the catalog (or its placeholder, before the first successful scan),
    and no device is written to before a scan was requested: every
    [send_hid_command] comes after a [scan_hid_devices]. *)
Theorem part000_no_write_before_scan (lower : JsString -> JsString) st :
  Part000.reachable lower st ->
  (Part000.deviceListDiv st = None /\ Part000.scannedDevices st = []
   \/ Part000.deviceListDiv st = Some (Part000.scannedDevices st))
  /\ (forall i path data,
        Part000.effects st !! i = Some (Part000.InvokeSend path data) ->
        exists j, (j < i)%nat
                  /\ Part000.effects st !! j = Some Part000.InvokeScan).
Proof.
  intros Hr. destruct (part000_inv lower st Hr) as (H1 & _ & H3). auto.
Qed.

Lemma part000_no_write_before_scan_witness :
  let b := Part000.backend_ok [Part000.keyboard; Part000.control] [170] in
  let st := Part000.step ascii_lower b (Part000.ClickSend (js "00 C0"))
              (Part000.step ascii_lower b Part000.ClickScan Part000.initial) in
  Part000.reachable ascii_lower st
  /\ Part000.deviceListDiv st = Some (Part000.scannedDevices st)
  /\ forall i path data,
       Part000.effects st !! i = Some (Part000.InvokeSend path data) ->
       exists j, (j < i)%nat
                 /\ Part000.effects st !! j = Some Part000.InvokeScan.
Proof.
  cbv zeta.
  set (b := Part000.backend_ok [Part000.keyboard; Part000.control] [170]).
  assert (Part000.reachable ascii_lower
            (Part000.step ascii_lower b (Part000.ClickSend (js "00 C0"))
               (Part000.step ascii_lower b Part000.ClickScan Part000.initial)))
    as Hr by (do 2 apply Part000.reachable_step; apply Part000.reachable_start).
  split; [exact Hr|]. split; [reflexivity|].
  exact (proj2 (part000_no_write_before_scan ascii_lower _ Hr)).
Defined.
